(** * DPLL satisfiability (src/main.py): a shallow embedding and its properties

    The Python module decides satisfiability of a CNF knowledge base with the
    DPLL procedure.  Clauses are Python sets, the knowledge base is a list of
    clauses, the model is a dict from names to booleans, and the recursive
    search threads one mutable dict ([stuff]) holding the winning model, the
    trace and the heuristic level.

    Sets are modelled by stdpp's [gset], dicts by [gmap], the mutable dict
    by explicit state passing, recursion by fuel that counts nested calls of
    [_dpll], and Python exceptions by an error result. *)

From Stdlib Require Import ZArith Strings.String Strings.Ascii Sorting.Sorted.
From stdpp Require Import base decidable countable strings list sorting gmap fin_sets fin_maps.

Local Open Scope Z_scope.
#[local] Set Warnings "-clear-no-such-hyp".

(** ** Literal model (main.py, lines 5-13) *)

(** [@dataclass(order=True, frozen=True) class Literal]: a name and a sign,
    with structural equality and the order of the pair (name, sign). *)
Record Literal : Type := mkLiteral { name : string; sign : bool }.

(** [Literal(k)]: the sign defaults to [True]. *)
Definition Literal_of (k : string) : Literal := mkLiteral k true.

(** [__neg__]: same name, inverted sign. *)
Definition neg (l : Literal) : Literal := mkLiteral (name l) (negb (sign l)).

#[global] Instance Literal_eq_dec : EqDecision Literal.
Proof. solve_decision. Defined.

#[global] Instance Literal_countable : Countable Literal.
Proof.
  refine (inj_countable' (fun l => (name l, sign l))
                         (fun p => mkLiteral (fst p) (snd p)) _).
  intros []; reflexivity.
Defined.

(** The generated [__lt__] compares the tuples [(name, sign)]: names as
    Python strings (by code point, which is the byte order of their UTF-8
    encoding), then signs with [False < True]. *)
Definition lit_ltb (a b : Literal) : bool :=
  match String.compare (name a) (name b) with
  | Lt => true
  | Eq => negb (sign a) && sign b
  | Gt => false
  end.

(** An entry of a clause while the search runs: [substitute] puts Python
    booleans next to the literals. *)
Inductive entry : Type :=
  | Lit (l : Literal)
  | Bool (b : bool).

#[global] Instance entry_eq_dec : EqDecision entry.
Proof. solve_decision. Defined.

#[global] Instance entry_countable : Countable entry.
Proof.
  refine (inj_countable' (fun e => match e with Lit l => inl l | Bool b => inr b end)
                         (fun s => match s with inl l => Lit l | inr b => Bool b end) _).
  intros []; reflexivity.
Defined.

(** Python truthiness of an entry: a dataclass instance without [__bool__]
    or [__len__] is truthy, a boolean is its own value. *)
Definition truthy (e : entry) : bool :=
  match e with Lit _ => true | Bool b => b end.

Definition as_lit (e : entry) : option Literal :=
  match e with Lit l => Some l | Bool _ => None end.

(** ** Results of fallible code *)

Inductive exn : Type := IndexError | StopIteration.

Inductive result (A : Type) : Type :=
  | Ret (a : A)
  | Raise (e : exn)
  | OutOfFuel.
Arguments Ret {A} a.
Arguments Raise {A} e.
Arguments OutOfFuel {A}.

Definition rbind {A B} (r : result A) (k : A -> result B) : result B :=
  match r with
  | Ret a => k a
  | Raise e => Raise e
  | OutOfFuel => OutOfFuel
  end.

Notation "'let*' x ':=' r 'in' k" := (rbind r (fun x => k))
  (at level 10, x pattern, r at level 100, k at level 200, only parsing).

(** ** [sorted]: Python's stable sort *)

(** [sorted] is stable: an element moves in front of another only when it
    is strictly before it in the sorting order.  [before y x] says that [y]
    sorts strictly before [x]; insertion from the right keeps equal elements
    in their original order. *)
Fixpoint sorted_insert {A} (before : A -> A -> bool) (x : A) (l : list A) : list A :=
  match l with
  | [] => [x]
  | y :: l' => if before y x then y :: sorted_insert before x l' else x :: l
  end.

Fixpoint sorted {A} (before : A -> A -> bool) (l : list A) : list A :=
  match l with
  | [] => []
  | x :: l' => sorted_insert before x (sorted before l')
  end.

(** [sorted(l, key=key, reverse=True)] with natural-number keys: larger
    keys first, equal keys in their original order. *)
Definition sorted_key_reverse {A} (key : A -> nat) (l : list A) : list A :=
  sorted (fun y x => Nat.ltb (key x) (key y)) l.

(** ** Knowledge-base utilities (main.py, lines 17-46) *)

(** [get_lits]: the union of all clauses. *)
Definition get_lits (kb : list (gset Literal)) : gset Literal := ⋃ kb.

(** [substitute]: every literal named [n] becomes the boolean
    [x.sign == value]; the other literals stay. *)
Definition subst_entry (n : string) (value : bool) (x : Literal) : entry :=
  if decide (name x ≠ n) then Lit x else Bool (eqb (sign x) value).

Definition substitute (n : string) (value : bool) (kb : list (gset Literal))
  : list (gset entry) :=
  (fun c => set_map (D := gset entry) (subst_entry n value) c) <$> kb.

(** [pure]: [lit in lits and -lit not in lits]. *)
Definition pure (lit : Literal) (kb : list (gset Literal)) : bool :=
  let lits := get_lits kb in
  bool_decide (lit ∈ lits) && negb (bool_decide (neg lit ∈ lits)).

(** [unit]: [{lit} in kb]. *)
Definition unit (lit : Literal) (kb : list (gset Literal)) : bool :=
  bool_decide (({[ lit ]} : gset Literal) ∈ kb).

(** [degree]: the number of clauses holding [lit] or [-lit]. *)
Definition degree (lit : Literal) (kb : list (gset Literal)) : nat :=
  sum_list ((fun clause : gset Literal =>
               if bool_decide (lit ∈ clause) || bool_decide (neg lit ∈ clause)
               then 1%nat else 0%nat) <$> kb).

(** ** The search state *)

(** [stuff]: the dict with keys ['model'], ['trace'] and ['h_lvl']. *)
Record Stuff : Type := mkStuff {
  st_model : gmap string bool;
  st_trace : list Literal;
  h_lvl : Z
}.

(** [stuff['trace'].append(sub)] *)
Definition push_trace (sub : Literal) (stuff : Stuff) : Stuff :=
  mkStuff (st_model stuff) (st_trace stuff ++ [sub]) (h_lvl stuff).

(** [stuff['model'].update(model)]: the keys of [model] win. *)
Definition save_model (model : gmap string bool) (stuff : Stuff) : Stuff :=
  mkStuff (model ∪ st_model stuff) (st_trace stuff) (h_lvl stuff).

(** ** The search engine (main.py, lines 51-108) *)

(** Housekeeping (line 57): clauses holding [True] are dropped, and of the
    others the truthy entries are kept.  A kept clause holds no [True], so
    its truthy entries are literals and the result is typed as sets of
    literals. *)
Definition housekeeping (kb : list (gset entry)) : list (gset Literal) :=
  (fun clause : gset entry =>
     set_omap (D := gset Literal) as_lit (filter (fun e => truthy e = true) clause))
    <$> filter (fun clause : gset entry => Bool true ∉ clause) kb.

(** Line 70 (and line 75 when the level is 3): the pure or unit literals,
    sorted.  The comprehension lists the set in its iteration order, here
    the order of [elements]; the sorted list does not depend on it
    ([sorted_lit_unique] below). *)
Definition candidates (h : Z) (kb : list (gset Literal)) : list Literal :=
  let c := sorted lit_ltb
             (filter (fun x => pure x kb || unit x kb = true) (elements (get_lits kb))) in
  if h =? 3 then sorted_key_reverse (fun l => degree l kb) c else c.

(** Line 95: all literals sorted by name, then stably by descending degree. *)
Definition by_degree (kb : list (gset Literal)) : list Literal :=
  sorted_key_reverse (fun l => degree l kb) (sorted lit_ltb (elements (get_lits kb))).

Section Search.

(** [one_of(s)] returns the first element in the iteration order of the
    set [s].  That order is no function of the set's value (it depends on
    the hash seed of the process and on how the set was built), so it is a
    parameter; it is indexed by the trace, which is different at every
    call of [one_of] within one run of [dpll_satisfiable]. *)
Variable iter_first : list Literal -> gset Literal -> Literal.

(** [s.__iter__().__next__()] raises [StopIteration] on the empty set. *)
Definition one_of (trace : list Literal) (s : gset Literal) : result Literal :=
  if decide (s = ∅) then Raise StopIteration else Ret (iter_first trace s).

(** [l[0]] raises [IndexError] on an empty list. *)
Definition index0 (l : list Literal) : result Literal :=
  match l with
  | [] => Raise IndexError
  | x :: _ => Ret x
  end.

(** Lines 91-101: the branching literal. *)
Definition branch_literal (stuff : Stuff) (kb : list (gset Literal)) : result Literal :=
  if h_lvl stuff >=? 1 then index0 (by_degree kb)
  else one_of (st_trace stuff) (get_lits kb).

(** [_dpll]; [fuel] bounds the number of nested calls. *)
Fixpoint _dpll (fuel : nat) (kb : list (gset entry)) (model : gmap string bool)
    (stuff : Stuff) : result (bool * Stuff) :=
  match fuel with
  | O => OutOfFuel
  | S fuel =>
    let kb := housekeeping kb in
    if bool_decide (kb = []) then Ret (true, save_model model stuff)
    else if bool_decide (Exists (fun clause => clause = ∅) kb) then Ret (false, stuff)
    else
      match (if h_lvl stuff >=? 2 then candidates (h_lvl stuff) kb else []) with
      | sub :: _ =>
          _dpll fuel (substitute (name sub) (sign sub) kb)
                (<[name sub := sign sub]> model) (push_trace sub stuff)
      | [] =>
          let* sub := branch_literal stuff kb in
          let stuff := push_trace sub stuff in
          let* (b, stuff) := _dpll fuel (substitute (name sub) true kb)
                                   (<[name sub := true]> model) stuff in
          if b then Ret (true, stuff)
          else _dpll fuel (substitute (name sub) false kb)
                     (<[name sub := false]> model) stuff
      end
  end.

(** The names of the literals of a knowledge base. *)
Definition clause_names (c : gset entry) : gset string :=
  set_omap (D := gset string) (fun e => name <$> as_lit e) c.

Definition kb_names (kb : list (gset entry)) : gset string :=
  ⋃ (clause_names <$> kb).

(** [dpll_satisfiable] (lines 111-133).  The search gets one unit of fuel
    per name of the knowledge base and one for the outermost call. *)
Definition dpll_satisfiable (kb : list (gset entry)) (heuristic_level : Z)
  : result (bool * gmap Literal bool * list Literal) :=
  let stf := mkStuff ∅ [] heuristic_level in
  let* (satisfiable, stf) := _dpll (S (size (kb_names kb))) kb ∅ stf in
  Ret (satisfiable, kmap Literal_of (st_model stf), st_trace stf).

End Search.

(** A knowledge base as the caller writes it: sets of literals only. *)
Definition of_lits (kb : list (gset Literal)) : list (gset entry) :=
  (fun c => set_map (D := gset entry) Lit c) <$> kb.

(** One concrete iteration order: the first element stdpp lists. *)
Definition first_listed (trace : list Literal) (s : gset Literal) : Literal :=
  default (Literal_of "") (head (elements s)).

Definition A : Literal := Literal_of "A".
Definition B : Literal := Literal_of "B".
Definition C : Literal := Literal_of "C".

(** ** Semantics of clauses *)

(** A literal is true under a valuation when the valuation gives its name
    the value of its sign; it is set by a model when the dict maps its name
    to its sign. *)
Definition lit_true (v : string -> bool) (l : Literal) : Prop := v (name l) = sign l.

Definition lit_set (m : gmap string bool) (l : Literal) : Prop :=
  m !! name l = Some (sign l).

(** An entry holds when it is a literal that holds or the boolean [True]. *)
Definition holds (P : Literal -> Prop) (e : entry) : Prop :=
  match e with Lit l => P l | Bool b => b = true end.

Definition clause_holds (P : Literal -> Prop) (c : gset entry) : Prop :=
  exists e, e ∈ c /\ holds P e.

Definition lclause_holds (P : Literal -> Prop) (c : gset Literal) : Prop :=
  exists l, l ∈ c /\ P l.

(** The valuation [v] with [n] set to [b]. *)
Definition override (n : string) (b : bool) (v : string -> bool) : string -> bool :=
  fun k => if decide (k = n) then b else v k.

Definition lits_names (kb : list (gset Literal)) : gset string :=
  set_map (D := gset string) name (get_lits kb).

(** The order of literals as a relation, and the order line 75 aims at:
    larger degree first, the order of literals among equal degrees. *)
Definition lit_lt (a b : Literal) : Prop := lit_ltb a b = true.

Definition key_then_lit (key : Literal -> nat) (a b : Literal) : Prop :=
  (key b < key a)%nat \/ (key a = key b /\ lit_lt a b).

Definition degree_then_lit (kb : list (gset Literal)) : Literal -> Literal -> Prop :=
  key_then_lit (fun l => degree l kb).

(** A valuation satisfies a knowledge base when every clause holds. *)
Definition kb_sat (v : string -> bool) (kb : list (gset entry)) : Prop :=
  forall c, c ∈ kb -> clause_holds (lit_true v) c.

Definition lkb_sat (v : string -> bool) (kb : list (gset Literal)) : Prop :=
  forall c, c ∈ kb -> lclause_holds (lit_true v) c.

(** What a call of [_dpll] on [kb], [model] and [stuff] that returns [b]
    and leaves [stuff'] has done: on [True] it has saved a model that
    extends [model] on names of [kb] only and makes every clause hold; on
    [False] the saved model is untouched and no valuation satisfies [kb]. *)
Definition dpll_post (kb : list (gset entry)) (model : gmap string bool)
    (stuff : Stuff) (b : bool) (stuff' : Stuff) : Prop :=
  if b then
    exists m', st_model stuff' = m' ∪ st_model stuff /\
      (forall k, k ∉ kb_names kb -> m' !! k = model !! k) /\
      (forall c, c ∈ kb -> clause_holds (lit_set m') c)
  else
    st_model stuff' = st_model stuff /\ forall v, ~ kb_sat v kb.

(** The parts of the heuristic level the search looks at. *)
Definition level_flags (h : Z) : bool * bool * bool := (h >=? 2, h =? 3, h >=? 1).

Definition set_level (h : Z) (r : bool * Stuff) : bool * Stuff :=
  (fst r, mkStuff (st_model (snd r)) (st_trace (snd r)) h).

Definition rmap {A B} (f : A -> B) (r : result A) : result B :=
  match r with
  | Ret a => Ret (f a)
  | Raise e => Raise e
  | OutOfFuel => OutOfFuel
  end.

(** The verdict of a run: the first component of what it returns. *)
Definition verdict (r : result (bool * gmap Literal bool * list Literal)) : option bool :=
  match r with
  | Ret (satisfiable, _, _) => Some satisfiable
  | _ => None
  end.

(** A knowledge base the search neither accepts nor rejects at once. *)
Definition nonterminal (kb : list (gset Literal)) : Prop :=
  kb <> [] /\ ~ Exists (fun clause => clause = ∅) kb.

(** ** Sample knowledge bases *)

(** [[{A, B}, {A, -B}]]: [A] is pure. *)
Definition kb_pure : list (gset entry) := of_lits [ {[A; B]}; {[A; neg B]} ].

(** [[{A, C}, {B, C}, {B, -C}]]: [A] and [B] are pure, [B] has the larger
    degree. *)
Definition kb_rank : list (gset entry) :=
  of_lits [ {[A; C]}; {[B; C]}; {[B; neg C]} ].

(** [[{A}, {-A}]] has no model. *)
Definition kb_clash : list (gset Literal) := [ {[A]}; {[neg A]} ].

(** [[{A, B}, {-A, C}]] has one. *)
Definition kb_chain : list (gset Literal) := [ {[A; B]}; {[neg A; C]} ].

(** A literal occurs in a knowledge base when some clause holds it. *)
Definition occurs (l : Literal) (kb : list (gset entry)) : Prop :=
  exists c, c ∈ kb /\ Lit l ∈ c.

(** [[{A}, {A, B}]]: [A] is in a unit clause. *)
Definition kb_unit : list (gset Literal) := [ {[A]}; {[A; B]} ].

(** [[{A, C}, {B, C}, {B, -C}]] as sets of literals. *)
Definition kb_rank_lits : list (gset Literal) := [ {[A; C]}; {[B; C]}; {[B; neg C]} ].

(** * Properties *)

(** ** The order of literals *)

Section LiteralOrder.

Lemma ascii_compare_lt_trans a b c :
  Ascii.compare a b = Lt -> Ascii.compare b c = Lt -> Ascii.compare a c = Lt.
Proof.
  unfold Ascii.compare. rewrite !N.compare_lt_iff. apply N.lt_trans.
Qed.

Lemma string_compare_refl s : String.compare s s = Eq.
Proof.
  induction s as [|a s IH]; simpl; [reflexivity|].
  unfold Ascii.compare. rewrite N.compare_refl. exact IH.
Qed.

Lemma string_compare_eq s t : String.compare s t = Eq <-> s = t.
Proof.
  split; [apply String.compare_eq_iff | intros ->; apply string_compare_refl].
Qed.

Lemma string_compare_lt_trans s : forall t u,
  String.compare s t = Lt -> String.compare t u = Lt -> String.compare s u = Lt.
Proof.
  induction s as [|a s IH]; intros [|b t] [|c u]; simpl; try congruence.
  destruct (Ascii.compare a b) eqn:Hab; try discriminate.
  - apply Ascii.compare_eq_iff in Hab as ->.
    destruct (Ascii.compare b c); try congruence. apply IH.
  - intros _. destruct (Ascii.compare b c) eqn:Hbc; try discriminate.
    + apply Ascii.compare_eq_iff in Hbc as <-. now rewrite Hab.
    + intros _. now rewrite (ascii_compare_lt_trans _ _ _ Hab Hbc).
Qed.

Lemma string_compare_gt s t : String.compare s t = Gt <-> String.compare t s = Lt.
Proof.
  rewrite (String.compare_antisym t s). destruct (String.compare s t); simpl; split; congruence.
Qed.

Lemma lit_lt_irrefl a : ~ lit_lt a a.
Proof.
  unfold lit_lt, lit_ltb. rewrite string_compare_refl. destruct (sign a); simpl; congruence.
Qed.

Lemma lit_lt_trans a b c : lit_lt a b -> lit_lt b c -> lit_lt a c.
Proof.
  unfold lit_lt, lit_ltb.
  destruct (String.compare (name a) (name b)) eqn:Hab; try discriminate.
  - apply string_compare_eq in Hab. rewrite Hab.
    destruct (String.compare (name b) (name c)); try congruence.
    destruct (sign a), (sign b), (sign c); simpl; congruence.
  - intros _. destruct (String.compare (name b) (name c)) eqn:Hbc; try discriminate.
    + apply string_compare_eq in Hbc. rewrite <- Hbc, Hab. reflexivity.
    + now rewrite (string_compare_lt_trans _ _ _ Hab Hbc).
Qed.

Lemma lit_lt_total a b : lit_lt a b \/ a = b \/ lit_lt b a.
Proof.
  unfold lit_lt, lit_ltb. destruct a as [na sa], b as [nb sb]; simpl.
  destruct (String.compare na nb) eqn:Hab.
  - apply string_compare_eq in Hab as ->. rewrite string_compare_refl.
    destruct sa, sb; simpl; auto.
  - auto.
  - apply string_compare_gt in Hab. rewrite Hab. auto.
Qed.

#[global] Instance lit_lt_transitive : Transitive lit_lt.
Proof. exact lit_lt_trans. Qed.

#[global] Instance lit_lt_antisym : AntiSymm (=) lit_lt.
Proof. intros a b Hab Hba. destruct (lit_lt_irrefl a). now transitivity b. Qed.

End LiteralOrder.

(** ** [sorted] *)

Section Sorted.

Context {A : Type} (before : A -> A -> bool).

Lemma sorted_insert_perm x l : sorted_insert before x l ≡ₚ x :: l.
Proof.
  induction l as [|y l IH]; simpl; [reflexivity|].
  destruct (before y x); [|reflexivity].
  rewrite IH. apply Permutation_swap.
Qed.

Lemma sorted_perm l : sorted before l ≡ₚ l.
Proof.
  induction l as [|x l IH]; simpl; [reflexivity|].
  rewrite sorted_insert_perm. now rewrite IH.
Qed.

Lemma elem_of_sorted x l : x ∈ sorted before l <-> x ∈ l.
Proof. now rewrite sorted_perm. Qed.

End Sorted.

Lemma sorted_insert_lit x l :
  StronglySorted lit_lt l -> x ∉ l ->
  StronglySorted lit_lt (sorted_insert lit_ltb x l).
Proof.
  induction 1 as [|y l Hl IH Hy]; intros Hx; simpl.
  - repeat constructor.
  - apply not_elem_of_cons in Hx as [Hxy Hx].
    destruct (lit_ltb y x) eqn:Hlt.
    + constructor; [auto|].
      rewrite sorted_insert_perm. constructor; assumption.
    + assert (lit_lt x y) as Hxlt.
      { destruct (lit_lt_total x y) as [?|[?|Hc]]; [assumption|contradiction|].
        unfold lit_lt in Hc. congruence. }
      constructor; [constructor; assumption|].
      constructor; [assumption|].
      eapply Forall_impl; [exact Hy|]. intros z Hz. now transitivity y.
Qed.

(** Sorting a list without repetitions by the order of literals gives the
    strictly increasing list of its elements. *)
Lemma sorted_lit_sorted l : NoDup l -> StronglySorted lit_lt (sorted lit_ltb l).
Proof.
  induction 1 as [|x l Hx Hl IH]; simpl; [constructor|].
  apply sorted_insert_lit; [assumption|]. now rewrite elem_of_sorted.
Qed.

(** The result does not depend on the order in which the set is listed. *)
Lemma sorted_lit_unique l1 l2 :
  NoDup l1 -> l1 ≡ₚ l2 -> sorted lit_ltb l1 = sorted lit_ltb l2.
Proof.
  intros Hnd Hp. apply (StronglySorted_unique lit_lt).
  - now apply sorted_lit_sorted.
  - apply sorted_lit_sorted. now rewrite <- Hp.
  - now rewrite !sorted_perm.
Qed.

Section KeySort.

Variable key : Literal -> nat.

Lemma sorted_insert_key x l :
  StronglySorted (key_then_lit key) l -> Forall (lit_lt x) l ->
  StronglySorted (key_then_lit key) (sorted_insert (fun y x => Nat.ltb (key x) (key y)) x l).
Proof.
  induction 1 as [|y l Hl IH Hy]; intros Hx; simpl.
  - repeat constructor.
  - apply Forall_cons in Hx as [Hxy Hx].
    destruct (Nat.ltb (key x) (key y)) eqn:Hlt.
    + apply Nat.ltb_lt in Hlt.
      constructor; [auto|].
      rewrite sorted_insert_perm. constructor; [now left | assumption].
    + apply Nat.ltb_ge in Hlt.
      constructor; [constructor; assumption|].
      assert (forall z, lit_lt x z -> (key z <= key y)%nat -> key_then_lit key x z) as Hk.
      { intros z Hz Hzy. unfold key_then_lit.
        destruct (decide (key z < key x)%nat); [now left | right; split; [lia | assumption]]. }
      constructor; [apply Hk; [assumption | lia]|].
      rewrite Forall_forall in Hy, Hx. apply Forall_forall. intros z Hz.
      apply Hk; [auto|]. destruct (Hy z Hz) as [?|[? _]]; lia.
Qed.

(** The stable sort by descending key of a list in the order of literals
    is in the lexicographic order: larger key first, then the order of
    literals. *)
Lemma sorted_key_reverse_sorted l :
  StronglySorted lit_lt l -> StronglySorted (key_then_lit key) (sorted_key_reverse key l).
Proof.
  unfold sorted_key_reverse.
  induction 1 as [|x l Hl IH Hx]; simpl; [constructor|].
  apply sorted_insert_key; [assumption|]. now rewrite sorted_perm.
Qed.

End KeySort.

(** ** Housekeeping and substitution *)

Section Utilities.

Implicit Types (kb : list (gset entry)) (lkb : list (gset Literal)).
Implicit Types (c : gset entry) (lc : gset Literal) (P : Literal -> Prop).

Lemma elem_of_get_lits l lkb : l ∈ get_lits lkb <-> exists lc, lc ∈ lkb /\ l ∈ lc.
Proof.
  unfold get_lits. rewrite elem_of_union_list. naive_solver.
Qed.

Lemma elem_of_kept_literals l c :
  l ∈ set_omap (D := gset Literal) as_lit (filter (fun e => truthy e = true) c)
  <-> Lit l ∈ c.
Proof.
  rewrite elem_of_set_omap. split.
  - intros (e & He & Hl). apply elem_of_filter in He as [_ He].
    destruct e; simpl in Hl; [|discriminate]. inversion Hl; subst. assumption.
  - intros Hl. exists (Lit l). split; [|reflexivity].
    apply elem_of_filter. split; [reflexivity | assumption].
Qed.

Lemma elem_of_housekeeping lc kb :
  lc ∈ housekeeping kb <->
  exists c, c ∈ kb /\ (Bool true ∉ c) /\
    lc = set_omap (D := gset Literal) as_lit (filter (fun e => truthy e = true) c).
Proof.
  unfold housekeeping. rewrite list_elem_of_fmap. split.
  - intros (c & -> & Hc). apply list_elem_of_filter in Hc as [Hn Hc]. eauto.
  - intros (c & Hc & Hn & ->). exists c. split; [reflexivity|].
    apply list_elem_of_filter. auto.
Qed.

(** Housekeeping keeps the meaning of the knowledge base. *)
Lemma housekeeping_holds P kb :
  (forall c, c ∈ kb -> clause_holds P c) <->
  (forall lc, lc ∈ housekeeping kb -> lclause_holds P lc).
Proof.
  split.
  - intros H lc Hlc. apply elem_of_housekeeping in Hlc as (c & Hc & Hn & ->).
    destruct (H c Hc) as (e & He & Hh). destruct e as [l|b]; simpl in Hh.
    + exists l. split; [now apply elem_of_kept_literals | assumption].
    + subst b. contradiction.
  - intros H c Hc. destruct (decide (Bool true ∈ c)) as [Ht|Hn].
    + exists (Bool true). split; [assumption | reflexivity].
    + destruct (H (set_omap as_lit (filter (fun e => truthy e = true) c)))
        as (l & Hl & HP).
      { apply elem_of_housekeeping. eauto. }
      exists (Lit l). split; [now apply elem_of_kept_literals | assumption].
Qed.

Lemma elem_of_substitute c n b lkb :
  c ∈ substitute n b lkb <->
  exists lc, lc ∈ lkb /\ c = set_map (D := gset entry) (subst_entry n b) lc.
Proof.
  unfold substitute. rewrite list_elem_of_fmap. naive_solver.
Qed.

Lemma holds_subst_entry P n b x :
  holds P (subst_entry n b x) <->
  (name x <> n /\ P x) \/ (name x = n /\ sign x = b).
Proof.
  unfold subst_entry. destruct (decide (name x ≠ n)) as [Hne|He]; simpl.
  - naive_solver.
  - apply dec_stable in He. destruct (sign x), b; simpl; naive_solver.
Qed.

Lemma substitute_holds P n b lkb :
  (forall c, c ∈ substitute n b lkb -> clause_holds P c) <->
  (forall lc, lc ∈ lkb ->
     exists x, x ∈ lc /\ ((name x <> n /\ P x) \/ (name x = n /\ sign x = b))).
Proof.
  split.
  - intros H lc Hlc.
    destruct (H (set_map (subst_entry n b) lc)) as (e & He & Hh).
    { apply elem_of_substitute. eauto. }
    apply elem_of_map in He as (x & -> & Hx).
    exists x. split; [assumption | now apply holds_subst_entry].
  - intros H c Hc. apply elem_of_substitute in Hc as (lc & Hlc & ->).
    destruct (H lc Hlc) as (x & Hx & HP).
    exists (subst_entry n b x). split; [|now apply holds_subst_entry].
    apply elem_of_map. eauto.
Qed.

(** Substituting [b] for [n] is evaluation under the valuation that sets
    [n] to [b]. *)
Lemma substitute_holds_val v n b lkb :
  (forall c, c ∈ substitute n b lkb -> clause_holds (lit_true v) c) <->
  (forall lc, lc ∈ lkb -> lclause_holds (lit_true (override n b v)) lc).
Proof.
  rewrite substitute_holds. unfold lclause_holds, lit_true, override.
  split; intros H lc Hlc; destruct (H lc Hlc) as (x & Hx & HP); exists x;
    (split; [assumption|]); destruct (decide (name x = n)); naive_solver.
Qed.

Lemma substitute_holds_model m n b lkb :
  m !! n = Some b ->
  (forall c, c ∈ substitute n b lkb -> clause_holds (lit_set m) c) ->
  forall lc, lc ∈ lkb -> lclause_holds (lit_set m) lc.
Proof.
  intros Hm H lc Hlc. rewrite substitute_holds in H.
  destruct (H lc Hlc) as (x & Hx & [[_ HP]|[Hn Hs]]); exists x;
    (split; [assumption|]); [assumption|].
  unfold lit_set. now rewrite Hn, Hs.
Qed.

Lemma override_same v n lc :
  lclause_holds (lit_true v) lc -> lclause_holds (lit_true (override n (v n) v)) lc.
Proof.
  intros (x & Hx & HP). exists x. split; [assumption|].
  unfold lit_true, override in *. destruct (decide (name x = n)); congruence.
Qed.

(** *** Names *)

Lemma elem_of_kb_names k kb :
  k ∈ kb_names kb <-> exists c l, c ∈ kb /\ Lit l ∈ c /\ name l = k.
Proof.
  unfold kb_names, clause_names. rewrite elem_of_union_list. split.
  - intros (X & HX & Hk). apply list_elem_of_fmap in HX as (c & -> & Hc).
    apply elem_of_set_omap in Hk as (e & He & Hn).
    destruct e as [l|b]; simpl in Hn; [|discriminate].
    exists c, l. inversion Hn. auto.
  - intros (c & l & Hc & Hl & <-).
    exists (set_omap (fun e => name <$> as_lit e) c). split.
    + apply list_elem_of_fmap. eauto.
    + apply elem_of_set_omap. exists (Lit l). auto.
Qed.

Lemma elem_of_lits_names k lkb :
  k ∈ lits_names lkb <-> exists l, l ∈ get_lits lkb /\ name l = k.
Proof.
  unfold lits_names. rewrite elem_of_map. naive_solver.
Qed.

Lemma lits_names_housekeeping kb : lits_names (housekeeping kb) ⊆ kb_names kb.
Proof.
  intros k Hk. apply elem_of_lits_names in Hk as (l & Hl & <-).
  apply elem_of_get_lits in Hl as (lc & Hlc & Hl).
  apply elem_of_housekeeping in Hlc as (c & Hc & _ & ->).
  apply elem_of_kept_literals in Hl. apply elem_of_kb_names. eauto.
Qed.

Lemma kb_names_substitute n b lkb :
  kb_names (substitute n b lkb) ⊆ lits_names lkb ∖ {[ n ]}.
Proof.
  intros k Hk. apply elem_of_kb_names in Hk as (c & l & Hc & Hl & <-).
  apply elem_of_substitute in Hc as (lc & Hlc & ->).
  apply elem_of_map in Hl as (x & Hx & Hxl).
  unfold subst_entry in Hx. destruct (decide (name x ≠ n)); [|discriminate].
  inversion Hx; subst x.
  apply elem_of_difference. split.
  - apply elem_of_lits_names. exists l. split; [|reflexivity].
    apply elem_of_get_lits. eauto.
  - now rewrite elem_of_singleton.
Qed.

(** Each decision removes a name: the knowledge base of a recursive call
    has fewer names than the one of the call. *)
Lemma names_decrease kb sub b :
  sub ∈ get_lits (housekeeping kb) ->
  (size (kb_names (substitute (name sub) b (housekeeping kb))) < size (kb_names kb))%nat.
Proof.
  intros Hsub. apply subset_size.
  assert (name sub ∈ lits_names (housekeeping kb)) as Hn.
  { apply elem_of_lits_names. eauto. }
  pose proof (lits_names_housekeeping kb) as H1.
  pose proof (kb_names_substitute (name sub) b (housekeeping kb)) as H2.
  set_solver.
Qed.

End Utilities.

(** ** The choice of a literal *)

Section Choice.

Implicit Types (lkb : list (gset Literal)).

Lemma candidates_elem x h lkb :
  x ∈ candidates h lkb <->
  x ∈ get_lits lkb /\ (pure x lkb = true \/ unit x lkb = true).
Proof.
  unfold candidates, sorted_key_reverse.
  assert (x ∈ sorted lit_ltb
              (filter (fun x => pure x lkb || unit x lkb = true) (elements (get_lits lkb)))
          <-> x ∈ get_lits lkb /\ (pure x lkb = true \/ unit x lkb = true)) as H.
  { rewrite elem_of_sorted, list_elem_of_filter, elem_of_elements, orb_true_iff. tauto. }
  destruct (h =? 3); [rewrite elem_of_sorted|]; exact H.
Qed.

Lemma by_degree_elem x lkb : x ∈ by_degree lkb <-> x ∈ get_lits lkb.
Proof.
  unfold by_degree, sorted_key_reverse.
  now rewrite !elem_of_sorted, elem_of_elements.
Qed.

(** A knowledge base that is not empty and has no empty clause has a
    literal. *)
Lemma nonterminal_has_literal lkb :
  lkb <> [] -> ~ Exists (fun lc => lc = ∅) lkb -> get_lits lkb <> ∅.
Proof.
  intros Hne Hex Hempty. destruct lkb as [|lc lkb]; [congruence|].
  apply Hex. left. apply set_eq. intros x. split; [|set_solver].
  intros Hx. rewrite <- Hempty. apply elem_of_get_lits. exists lc. split; [left | assumption].
Qed.

Lemma pure_sat v sub lkb :
  pure sub lkb = true -> lkb_sat v lkb ->
  lkb_sat (override (name sub) (sign sub) v) lkb.
Proof.
  unfold pure. rewrite andb_true_iff, negb_true_iff, bool_decide_eq_true, bool_decide_eq_false.
  intros [_ Hneg] Hsat lc Hlc. destruct (Hsat lc Hlc) as (x & Hx & HP).
  exists x. split; [assumption|]. unfold lit_true, override in *.
  destruct (decide (name x = name sub)) as [Hn|]; [|assumption].
  destruct (decide (sign x = sign sub)) as [|Hs]; [congruence|].
  exfalso. apply Hneg. apply elem_of_get_lits. exists lc. split; [assumption|].
  replace (neg sub) with x; [assumption|].
  destruct x as [nx sx], sub as [ns ss]; unfold neg; simpl in *.
  rewrite Hn. f_equal. destruct sx, ss; simpl; congruence.
Qed.

Lemma unit_sat v sub lkb :
  unit sub lkb = true -> lkb_sat v lkb ->
  lkb_sat (override (name sub) (sign sub) v) lkb.
Proof.
  unfold unit. rewrite bool_decide_eq_true. intros Hu Hsat.
  destruct (Hsat _ Hu) as (x & Hx & HP). apply elem_of_singleton in Hx as ->.
  unfold lit_true in HP. rewrite <- HP.
  intros lc Hlc. apply override_same. now apply Hsat.
Qed.

(** A pure or unit literal can be given its sign: if the substituted
    knowledge base has no satisfying valuation, neither has the one
    before housekeeping. *)
Lemma unsat_freebie kb sub :
  pure sub (housekeeping kb) = true \/ unit sub (housekeeping kb) = true ->
  (forall v, ~ kb_sat v (substitute (name sub) (sign sub) (housekeeping kb))) ->
  forall v, ~ kb_sat v kb.
Proof.
  intros Hpu Hun v Hsat. apply (Hun v).
  unfold kb_sat in *. apply substitute_holds_val.
  pose proof (proj1 (housekeeping_holds _ _) Hsat) as Hhk.
  destruct Hpu; [now apply pure_sat | now apply unit_sat].
Qed.

Lemma unsat_branch kb n :
  (forall v, ~ kb_sat v (substitute n true (housekeeping kb))) ->
  (forall v, ~ kb_sat v (substitute n false (housekeeping kb))) ->
  forall v, ~ kb_sat v kb.
Proof.
  intros Ht Hf v Hsat. unfold kb_sat in *.
  pose proof (proj1 (housekeeping_holds _ _) Hsat) as Hhk.
  assert (lkb_sat (override n (v n) v) (housekeeping kb)) as Hv.
  { intros lc Hlc. apply override_same. now apply Hhk. }
  pose proof (proj2 (substitute_holds_val _ _ _ _) Hv) as Hs.
  destruct (v n); [exact (Ht v Hs) | exact (Hf v Hs)].
Qed.

(** The model saved below a decision on [sub] is a model saved by the
    call that took the decision. *)
Lemma post_true_step kb model stuff stuff1 stuff' sub b :
  sub ∈ get_lits (housekeeping kb) ->
  st_model stuff1 = st_model stuff ->
  dpll_post (substitute (name sub) b (housekeeping kb))
            (<[name sub := b]> model) stuff1 true stuff' ->
  dpll_post kb model stuff true stuff'.
Proof.
  intros Hsub Hst (m' & Hm' & Hframe & Hholds). exists m'.
  assert (name sub ∈ lits_names (housekeeping kb)) as Hn.
  { apply elem_of_lits_names. eauto. }
  pose proof (lits_names_housekeeping kb) as H1.
  pose proof (kb_names_substitute (name sub) b (housekeeping kb)) as H2.
  split; [congruence|]. split.
  - intros k Hk. rewrite Hframe by set_solver.
    apply lookup_insert_ne. set_solver.
  - apply housekeeping_holds. apply (substitute_holds_model m' (name sub) b); [|assumption].
    rewrite Hframe by set_solver. apply lookup_insert_eq.
Qed.

End Choice.

(** ** The search *)

Section SearchCorrect.

Variable iter_first : list Literal -> gset Literal -> Literal.

(** The first element of a set that is not empty is one of its elements. *)
Hypothesis iter_first_elem : forall trace s, s <> ∅ -> iter_first trace s ∈ s.

Lemma _dpll_unfold fuel kb model stuff :
  _dpll iter_first (S fuel) kb model stuff =
  let kb := housekeeping kb in
  if bool_decide (kb = []) then Ret (true, save_model model stuff)
  else if bool_decide (Exists (fun clause => clause = ∅) kb) then Ret (false, stuff)
  else
    match (if h_lvl stuff >=? 2 then candidates (h_lvl stuff) kb else []) with
    | sub :: _ =>
        _dpll iter_first fuel (substitute (name sub) (sign sub) kb)
              (<[name sub := sign sub]> model) (push_trace sub stuff)
    | [] =>
        let* sub := branch_literal iter_first stuff kb in
        let stuff := push_trace sub stuff in
        let* (b, stuff) := _dpll iter_first fuel (substitute (name sub) true kb)
                                 (<[name sub := true]> model) stuff in
        if b then Ret (true, stuff)
        else _dpll iter_first fuel (substitute (name sub) false kb)
                   (<[name sub := false]> model) stuff
    end.
Proof. reflexivity. Qed.

(** The branching step finds a literal of the knowledge base: neither
    [[0]] nor [one_of] raises. *)
Lemma branch_literal_elem stuff lkb :
  get_lits lkb <> ∅ ->
  exists sub, branch_literal iter_first stuff lkb = Ret sub /\ sub ∈ get_lits lkb.
Proof.
  intros Hne. unfold branch_literal. destruct (h_lvl stuff >=? 1).
  - destruct (by_degree lkb) as [|x l] eqn:Hl.
    + exfalso. apply Hne. apply set_eq. intros x.
      rewrite <- by_degree_elem, Hl. set_solver.
    + exists x. split; [reflexivity|]. apply by_degree_elem. rewrite Hl. left.
  - unfold one_of. destruct (decide (get_lits lkb = ∅)); [contradiction|].
    eexists. split; [reflexivity|]. now apply iter_first_elem.
Qed.

(** With more fuel than the knowledge base has names, [_dpll] returns,
    and what it returns is right. *)
Lemma _dpll_correct fuel : forall kb model stuff,
  (size (kb_names kb) < fuel)%nat ->
  exists b stuff',
    _dpll iter_first fuel kb model stuff = Ret (b, stuff') /\
    dpll_post kb model stuff b stuff'.
Proof.
  induction fuel as [|fuel IH]; intros kb model stuff Hsz; [lia|].
  rewrite _dpll_unfold. cbv zeta.
  case_bool_decide as Hnil.
  { exists true, (save_model model stuff). split; [reflexivity|].
    exists model. split; [reflexivity|]. split; [reflexivity|].
    apply housekeeping_holds. rewrite Hnil. intros lc Hlc. inversion Hlc. }
  case_bool_decide as Hex.
  { exists false, stuff. split; [reflexivity|]. split; [reflexivity|].
    intros v Hv. pose proof (proj1 (housekeeping_holds _ _) Hv) as Hhk.
    apply Exists_exists in Hex as (lc & Hlc & ->).
    destruct (Hhk ∅ Hlc) as (l & Hl & _). set_solver. }
  destruct (if h_lvl stuff >=? 2 then candidates (h_lvl stuff) (housekeeping kb) else [])
    as [|sub rest] eqn:Hc.
  - (* branch *)
    destruct (branch_literal_elem stuff (housekeeping kb)) as (sub & -> & Hsub).
    { now apply nonterminal_has_literal. }
    simpl.
    destruct (IH (substitute (name sub) true (housekeeping kb))
                 (<[name sub := true]> model) (push_trace sub stuff))
      as (b1 & stuff1 & -> & Hpost1).
    { pose proof (names_decrease kb sub true Hsub). lia. }
    simpl. destruct b1.
    + exists true, stuff1. split; [reflexivity|].
      now apply (post_true_step kb model stuff (push_trace sub stuff) stuff1 sub true).
    + destruct Hpost1 as [Hm1 Hun1].
      destruct (IH (substitute (name sub) false (housekeeping kb))
                   (<[name sub := false]> model) stuff1)
        as (b2 & stuff2 & -> & Hpost2).
      { pose proof (names_decrease kb sub false Hsub). lia. }
      exists b2, stuff2. split; [reflexivity|]. destruct b2.
      * now apply (post_true_step kb model stuff stuff1 stuff2 sub false).
      * destruct Hpost2 as [Hm2 Hun2]. split; [simpl in *; congruence|].
        now apply (unsat_branch kb (name sub)).
  - (* a pure or unit literal *)
    assert (sub ∈ candidates (h_lvl stuff) (housekeeping kb)) as Hsub.
    { destruct (h_lvl stuff >=? 2); [|discriminate]. rewrite Hc. left. }
    apply candidates_elem in Hsub as [Hsub Hpu].
    destruct (IH (substitute (name sub) (sign sub) (housekeeping kb))
                 (<[name sub := sign sub]> model) (push_trace sub stuff))
      as (b & stuff' & -> & Hpost).
    { pose proof (names_decrease kb sub (sign sub) Hsub). lia. }
    exists b, stuff'. split; [reflexivity|]. destruct b.
    + now apply (post_true_step kb model stuff (push_trace sub stuff) stuff' sub (sign sub)).
    + destruct Hpost as [Hm Hun]. split; [exact Hm|].
      now apply (unsat_freebie kb sub).
Qed.

(** More fuel does not change what [_dpll] returns. *)
Lemma _dpll_fuel_mono fuel : forall fuel' kb model stuff r,
  _dpll iter_first fuel kb model stuff = Ret r -> (fuel <= fuel')%nat ->
  _dpll iter_first fuel' kb model stuff = Ret r.
Proof.
  induction fuel as [|fuel IH]; intros fuel' kb model stuff r; [discriminate|].
  intros Hr Hle. destruct fuel' as [|fuel']; [lia|].
  assert (fuel <= fuel')%nat as Hle' by lia.
  rewrite _dpll_unfold in *. cbv zeta in *.
  case_bool_decide; [assumption|]. case_bool_decide; [assumption|].
  destruct (if h_lvl stuff >=? 2 then candidates (h_lvl stuff) (housekeeping kb) else [])
    as [|sub rest].
  - destruct (branch_literal iter_first stuff (housekeeping kb)) as [sub| |];
      simpl in *; try discriminate.
    destruct (_dpll iter_first fuel (substitute (name sub) true (housekeeping kb)) _ _)
      as [[b1 stuff1]| |] eqn:H1; simpl in Hr; try discriminate.
    rewrite (IH _ _ _ _ _ H1 Hle'). simpl.
    destruct b1; [assumption|]. now apply IH.
  - now apply IH.
Qed.

End SearchCorrect.

(** ** The heuristic level *)

Section Level.

Variable iter_first : list Literal -> gset Literal -> Literal.

(** [_dpll] never writes the heuristic level. *)
Lemma _dpll_h_lvl fuel : forall kb model stuff b stuff',
  _dpll iter_first fuel kb model stuff = Ret (b, stuff') -> h_lvl stuff' = h_lvl stuff.
Proof.
  induction fuel as [|fuel IH]; intros kb model stuff b stuff'; [discriminate|].
  rewrite _dpll_unfold. cbv zeta.
  case_bool_decide; [intros [= <- <-]; reflexivity|].
  case_bool_decide; [intros [= <- <-]; reflexivity|].
  destruct (if h_lvl stuff >=? 2 then candidates (h_lvl stuff) (housekeeping kb) else [])
    as [|sub rest].
  - destruct (branch_literal iter_first stuff (housekeeping kb)) as [sub| |];
      simpl; try discriminate.
    destruct (_dpll iter_first fuel (substitute (name sub) true (housekeeping kb)) _ _)
      as [[b1 stuff1]| |] eqn:H1; simpl; try discriminate.
    apply IH in H1. destruct b1.
    + intros [= <- <-]. exact H1.
    + intros H2. apply IH in H2. simpl in *. congruence.
  - intros Hr. apply IH in Hr. exact Hr.
Qed.

(** The search reads the level through three tests only. *)
Lemma _dpll_level h h' :
  level_flags h = level_flags h' ->
  forall fuel kb model m t,
    _dpll iter_first fuel kb model (mkStuff m t h') =
    rmap (set_level h') (_dpll iter_first fuel kb model (mkStuff m t h)).
Proof.
  intros [= H2 H3 H1]. induction fuel as [|fuel IH]; intros kb model m t; [reflexivity|].
  rewrite !_dpll_unfold. cbv zeta.
  case_bool_decide; [reflexivity|]. case_bool_decide; [reflexivity|].
  unfold candidates, branch_literal. simpl h_lvl. simpl st_trace.
  rewrite <- H2, <- H3, <- H1.
  destruct (if h >=? 2 then _ else _) as [|sub rest].
  - destruct (if h >=? 1 then _ else _) as [sub| |]; simpl; try reflexivity.
    unfold push_trace. simpl. rewrite IH.
    destruct (_dpll iter_first fuel _ _ (mkStuff m (t ++ [sub]) h))
      as [[b1 [m1 t1 h1]]| |] eqn:E1; simpl; try reflexivity.
    destruct b1; [reflexivity|].
    apply _dpll_h_lvl in E1. simpl in E1. subst h1. apply IH.
  - unfold push_trace. simpl. apply IH.
Qed.

Lemma dpll_satisfiable_level h h' kb :
  level_flags h = level_flags h' ->
  dpll_satisfiable iter_first kb h' = dpll_satisfiable iter_first kb h.
Proof.
  intros Hf. unfold dpll_satisfiable. rewrite (_dpll_level h h' Hf).
  destruct (_dpll iter_first _ kb ∅ (mkStuff ∅ [] h)) as [[b s]| |]; reflexivity.
Qed.

Lemma level_flags_high h : 4 <= h -> level_flags 2 = level_flags h.
Proof.
  intros Hh. unfold level_flags.
  assert ((h >=? 2) = true) as -> by lia.
  assert ((h =? 3) = false) as -> by lia.
  assert ((h >=? 1) = true) as -> by lia.
  reflexivity.
Qed.

Lemma level_flags_low h : h <= 0 -> level_flags 0 = level_flags h.
Proof.
  intros Hh. unfold level_flags.
  assert ((h >=? 2) = false) as -> by lia.
  assert ((h =? 3) = false) as -> by lia.
  assert ((h >=? 1) = false) as -> by lia.
  reflexivity.
Qed.

End Level.

(** ** One iteration order *)

Lemma first_listed_elem trace (s : gset Literal) : s <> ∅ -> first_listed trace s ∈ s.
Proof.
  intros Hne. unfold first_listed.
  destruct (elements s) as [|x l] eqn:Hl.
  - apply elements_empty_inv in Hl. apply leibniz_equiv in Hl. contradiction.
  - simpl. apply elem_of_elements. rewrite Hl. left.
Qed.

(** ** The entry point *)

#[global] Instance Literal_of_inj : Inj (=) (=) Literal_of.
Proof. intros k1 k2 [= ->]. reflexivity. Qed.

Section Driver.

Variable iter_first : list Literal -> gset Literal -> Literal.
Hypothesis iter_first_elem : forall trace s, s <> ∅ -> iter_first trace s ∈ s.

(** [dpll_satisfiable] returns; on [True] its model makes every clause
    hold, on [False] its model is empty and no valuation satisfies the
    knowledge base. *)
Lemma dpll_satisfiable_correct kb h :
  exists b m t,
    dpll_satisfiable iter_first kb h = Ret (b, m, t) /\
    if b then
      exists m', m = kmap Literal_of m' /\ forall c, c ∈ kb -> clause_holds (lit_set m') c
    else m = ∅ /\ forall v, ~ kb_sat v kb.
Proof.
  unfold dpll_satisfiable.
  destruct (_dpll_correct iter_first iter_first_elem (S (size (kb_names kb)))
              kb ∅ (mkStuff ∅ [] h)) as (b & stuff' & -> & Hpost); [lia|].
  simpl. exists b, (kmap Literal_of (st_model stuff')), (st_trace stuff').
  split; [reflexivity|]. destruct b.
  - destruct Hpost as (m' & Hm' & _ & Hholds). exists m'. split; [|assumption].
    rewrite Hm'. simpl. now rewrite (right_id_L ∅ (∪)).
  - destruct Hpost as [Hm Hun]. split; [|assumption].
    rewrite Hm. simpl. apply kmap_empty.
Qed.

(** A model that makes every clause hold gives a valuation that does. *)
Lemma model_gives_valuation (m : gmap string bool) kb :
  (forall c, c ∈ kb -> clause_holds (lit_set m) c) ->
  kb_sat (fun k => default false (m !! k)) kb.
Proof.
  intros H c Hc. destruct (H c Hc) as (e & He & Hh). exists e. split; [assumption|].
  destruct e as [l|b]; simpl in *; [|assumption].
  unfold lit_set in Hh. unfold lit_true. now rewrite Hh.
Qed.

(** The verdict is the satisfiability of the knowledge base. *)
Lemma dpll_satisfiable_verdict kb h :
  exists b, verdict (dpll_satisfiable iter_first kb h) = Some b /\
            (b = true <-> exists v, kb_sat v kb).
Proof.
  destruct (dpll_satisfiable_correct kb h) as (b & m & t & -> & H).
  exists b. split; [reflexivity|]. destruct b.
  - destruct H as (m' & _ & H). split; [|reflexivity].
    intros _. eexists. apply model_gives_valuation. exact H.
  - destruct H as [_ H]. split; [discriminate|]. intros [v Hv]. now destruct (H v).
Qed.

End Driver.

(** * The claims *)

(** C1 (soundness of a satisfying result).  For every knowledge base [kb]
    given as a list of sets of literals and every heuristic level, if
    [dpll_satisfiable] returns [True] with model [m], then every clause of
    [kb] holds a literal whose name [m] maps (under the key [Literal(name)])
    to the literal's sign. *)
Theorem dpll_sound (iter_first : list Literal -> gset Literal -> Literal)
    (Hiter : forall trace s, s <> ∅ -> iter_first trace s ∈ s)
    (kb : list (gset Literal)) (h : Z) m t :
  dpll_satisfiable iter_first (of_lits kb) h = Ret (true, m, t) ->
  forall c, c ∈ kb -> exists l, l ∈ c /\ m !! Literal_of (name l) = Some (sign l).
Proof.
  intros Hrun c Hc.
  destruct (dpll_satisfiable_correct iter_first Hiter (of_lits kb) h)
    as (b & m0 & t0 & Hrun' & H).
  rewrite Hrun in Hrun'. injection Hrun' as <- <- <-.
  destruct H as (m' & -> & H).
  destruct (H (set_map Lit c)) as (e & He & Hh).
  { unfold of_lits. apply list_elem_of_fmap. eauto. }
  apply elem_of_map in He as (l & -> & Hl). exists l. split; [assumption|].
  rewrite (lookup_kmap Literal_of). exact Hh.
Qed.

Lemma dpll_sound_witness :
  dpll_satisfiable first_listed (of_lits kb_chain) 1
    = Ret (true, {[ A := true; C := true ]}, [neg A; C]) /\
  forall c, c ∈ kb_chain ->
    exists l, l ∈ c /\
      ({[ A := true; C := true ]} : gmap Literal bool) !! Literal_of (name l) = Some (sign l).
Proof.
  split; [vm_compute; reflexivity|].
  apply (dpll_sound first_listed first_listed_elem kb_chain 1 _ [neg A; C]).
  vm_compute; reflexivity.
Defined.

(** C2 (completeness on unsatisfiable inputs).  For every knowledge base
    and every heuristic level, if [dpll_satisfiable] returns [False], then
    no assignment of booleans to the names makes a literal true in every
    clause. *)
Theorem dpll_complete (iter_first : list Literal -> gset Literal -> Literal)
    (Hiter : forall trace s, s <> ∅ -> iter_first trace s ∈ s)
    (kb : list (gset entry)) (h : Z) m t :
  dpll_satisfiable iter_first kb h = Ret (false, m, t) ->
  forall v : string -> bool,
    ~ (forall c, c ∈ kb -> exists l, Lit l ∈ c /\ v (name l) = sign l).
Proof.
  intros Hrun v Hv.
  destruct (dpll_satisfiable_correct iter_first Hiter kb h) as (b & m0 & t0 & Hrun' & H).
  rewrite Hrun in Hrun'. injection Hrun' as <- <- <-.
  destruct H as [_ H]. apply (H v). intros c Hc.
  destruct (Hv c Hc) as (l & Hl & Hlv). exists (Lit l). split; assumption.
Qed.

Lemma dpll_complete_witness :
  dpll_satisfiable first_listed (of_lits kb_clash) 0 = Ret (false, ∅, [A]) /\
  forall v : string -> bool,
    ~ (forall c, c ∈ of_lits kb_clash -> exists l, Lit l ∈ c /\ v (name l) = sign l).
Proof.
  split; [vm_compute; reflexivity|].
  apply (dpll_complete first_listed first_listed_elem (of_lits kb_clash) 0 ∅ [A]).
  vm_compute; reflexivity.
Defined.

(** C3 (the verdict does not depend on the heuristic level).  For every
    knowledge base the runs at levels 0, 1, 2 and 3 all return, and with
    the same first component. *)
Theorem verdict_heuristic_invariant (iter_first : list Literal -> gset Literal -> Literal)
    (Hiter : forall trace s, s <> ∅ -> iter_first trace s ∈ s)
    (kb : list (gset entry)) :
  exists b,
    verdict (dpll_satisfiable iter_first kb 0) = Some b /\
    verdict (dpll_satisfiable iter_first kb 1) = Some b /\
    verdict (dpll_satisfiable iter_first kb 2) = Some b /\
    verdict (dpll_satisfiable iter_first kb 3) = Some b.
Proof.
  destruct (dpll_satisfiable_verdict iter_first Hiter kb 0) as (b0 & H0 & S0).
  destruct (dpll_satisfiable_verdict iter_first Hiter kb 1) as (b1 & H1 & S1).
  destruct (dpll_satisfiable_verdict iter_first Hiter kb 2) as (b2 & H2 & S2).
  destruct (dpll_satisfiable_verdict iter_first Hiter kb 3) as (b3 & H3 & S3).
  assert (forall b b' : bool, (b = true <-> exists v, kb_sat v kb) ->
                              (b' = true <-> exists v, kb_sat v kb) -> b' = b) as Hsame.
  { intros b b' Hb Hb'. destruct b, b'; try reflexivity.
    - apply Hb'. now apply Hb.
    - symmetry. apply Hb. now apply Hb'. }
  exists b0. rewrite H0, H1, H2, H3.
  rewrite (Hsame b0 b1 S0 S1), (Hsame b0 b2 S0 S2), (Hsame b0 b3 S0 S3). auto.
Qed.

Lemma verdict_heuristic_invariant_witness :
  exists b,
    verdict (dpll_satisfiable first_listed kb_rank 0) = Some b /\
    verdict (dpll_satisfiable first_listed kb_rank 1) = Some b /\
    verdict (dpll_satisfiable first_listed kb_rank 2) = Some b /\
    verdict (dpll_satisfiable first_listed kb_rank 3) = Some b.
Proof.
  exact (verdict_heuristic_invariant first_listed first_listed_elem kb_rank).
Defined.

(** C4, as the specification states it, fails: level 4 is not level 3.  On
    [[{A, C}, {B, C}, {B, -C}]] level 3 ranks the pure literals by degree and
    starts with [B], level 4 passes the test [h_lvl >= 2] but not
    [h_lvl == 3] and starts with [A]. *)
Lemma level_four_is_not_level_three :
  dpll_satisfiable first_listed kb_rank 4
    = Ret (true, {[ A := true; B := true ]}, [A; B]) /\
  dpll_satisfiable first_listed kb_rank 3
    = Ret (true, {[ A := true; B := true ]}, [B; A]) /\
  dpll_satisfiable first_listed kb_rank 4 <> dpll_satisfiable first_listed kb_rank 3.
Proof.
  assert (dpll_satisfiable first_listed kb_rank 4
          = Ret (true, {[ A := true; B := true ]}, [A; B])) as H4
    by (vm_compute; reflexivity).
  assert (dpll_satisfiable first_listed kb_rank 3
          = Ret (true, {[ A := true; B := true ]}, [B; A])) as H3
    by (vm_compute; reflexivity).
  split; [exact H4|]. split; [exact H3|].
  rewrite H4, H3. intros Heq. inversion Heq.
Qed.

(** C4, amended.  The level is read through the tests [h_lvl >= 2],
    [h_lvl == 3] and [h_lvl >= 1]: every level from 4 on returns what level
    2 returns (verdict, model and trace), and every negative level what
    level 0 returns. *)
Theorem level_thresholds (iter_first : list Literal -> gset Literal -> Literal)
    (kb : list (gset entry)) (h : Z) :
  (4 <= h -> dpll_satisfiable iter_first kb h = dpll_satisfiable iter_first kb 2) /\
  (h < 0 -> dpll_satisfiable iter_first kb h = dpll_satisfiable iter_first kb 0).
Proof.
  split; intros Hh; apply dpll_satisfiable_level.
  - now apply level_flags_high.
  - apply level_flags_low. lia.
Qed.

Lemma level_thresholds_witness :
  dpll_satisfiable first_listed kb_rank 7 = dpll_satisfiable first_listed kb_rank 2 /\
  dpll_satisfiable first_listed kb_rank (-2) = dpll_satisfiable first_listed kb_rank 0.
Proof.
  split.
  - apply (proj1 (level_thresholds first_listed kb_rank 7)). lia.
  - apply (proj2 (level_thresholds first_listed kb_rank (-2))). lia.
Defined.

(** C5 (substitute keeps the shape).  [substitute(name, value, kb)] has as
    many clauses as [kb], and its clause at each position holds exactly:
    the literals of the clause of [kb] there whose name differs from
    [name], unchanged, and the boolean [sign == value] for each literal of
    that name. *)
Theorem substitute_shape (n : string) (value : bool) (kb : list (gset Literal)) :
  length (substitute n value kb) = length kb /\
  forall (i : nat) (c : gset Literal), kb !! i = Some c ->
    exists c' : gset entry,
      substitute n value kb !! i = Some c' /\
      forall e, e ∈ c' <->
        exists x, x ∈ c /\
          ((name x <> n /\ e = Lit x) \/ (name x = n /\ e = Bool (eqb (sign x) value))).
Proof.
  unfold substitute. split; [apply length_fmap|].
  intros i c Hi. eexists. split.
  - rewrite list_lookup_fmap, Hi. reflexivity.
  - intros e. rewrite elem_of_map. unfold subst_entry.
    split; intros (x & Hx1 & Hx2); exists x.
    + split; [assumption|]. destruct (decide (name x ≠ n)) as [Hn|Hn]; [auto|].
      apply dec_stable in Hn. auto.
    + split; [|assumption]. destruct (decide (name x ≠ n)) as [Hn|Hn]; naive_solver.
Qed.

Lemma substitute_shape_witness :
  length (substitute "A" true kb_chain) = length kb_chain /\
  exists c' : gset entry,
    substitute "A" true kb_chain !! 1%nat = Some c' /\
    forall e, e ∈ c' <->
      exists x, x ∈ ({[neg A; C]} : gset Literal) /\
        ((name x <> "A" /\ e = Lit x) \/ (name x = "A" /\ e = Bool (eqb (sign x) true))).
Proof.
  split.
  - apply (proj1 (substitute_shape "A" true kb_chain)).
  - apply (proj2 (substitute_shape "A" true kb_chain) 1%nat). reflexivity.
Defined.

(** C7 (termination and depth of recursion).  [dpll_satisfiable] returns
    on every knowledge base of sets of literals and booleans and at every
    level.  [_dpll] with fuel [n] nests at most [n] calls; it returns with
    one unit of fuel for the outermost call and one for each name of the
    knowledge base, and more fuel gives the same result: the recursive
    calls nest no deeper than the number of names. *)
Theorem dpll_terminates (iter_first : list Literal -> gset Literal -> Literal)
    (Hiter : forall trace s, s <> ∅ -> iter_first trace s ∈ s)
    (kb : list (gset entry)) (h : Z) :
  (exists r, dpll_satisfiable iter_first kb h = Ret r) /\
  forall model stuff, exists r,
    _dpll iter_first (S (size (kb_names kb))) kb model stuff = Ret r /\
    forall fuel, (size (kb_names kb) < fuel)%nat ->
      _dpll iter_first fuel kb model stuff = Ret r.
Proof.
  split.
  - destruct (dpll_satisfiable_correct iter_first Hiter kb h) as (b & m & t & -> & _).
    eauto.
  - intros model stuff.
    destruct (_dpll_correct iter_first Hiter (S (size (kb_names kb))) kb model stuff)
      as (b & stuff' & Hrun & _); [lia|].
    exists (b, stuff'). split; [exact Hrun|].
    intros fuel Hfuel. apply (_dpll_fuel_mono iter_first _ _ _ _ _ _ Hrun). lia.
Qed.

Lemma dpll_terminates_witness :
  (exists r, dpll_satisfiable first_listed kb_rank 0 = Ret r) /\
  forall model stuff, exists r,
    _dpll first_listed (S (size (kb_names kb_rank))) kb_rank model stuff = Ret r /\
    forall fuel, (size (kb_names kb_rank) < fuel)%nat ->
      _dpll first_listed fuel kb_rank model stuff = Ret r.
Proof.
  exact (dpll_terminates first_listed first_listed_elem kb_rank 0).
Defined.

(** The bound is reached: on [[{A}]], with one name, the outermost call
    makes one nested call, and the fuel for the outermost call alone is not
    enough. *)
Lemma dpll_depth_reached :
  _dpll first_listed 1 (of_lits [ {[A]} ]) ∅ (mkStuff ∅ [] 0) = OutOfFuel /\
  _dpll first_listed 2 (of_lits [ {[A]} ]) ∅ (mkStuff ∅ [] 0)
    = Ret (true, mkStuff {[ "A" := true ]} [A] 0).
Proof. split; vm_compute; reflexivity. Qed.

(** C8 (the empty knowledge base).  [dpll_satisfiable([], h)] returns
    [(True, {}, [])] at every level [h]. *)
Theorem dpll_empty_kb (iter_first : list Literal -> gset Literal -> Literal) (h : Z) :
  dpll_satisfiable iter_first [] h = Ret (true, ∅, []).
Proof. reflexivity. Qed.

(** C9 (the empty clause).  [dpll_satisfiable([set()], h)] returns [False]
    with an empty model and an empty trace at every level [h]; the call of
    [_dpll] returns before any decision: it leaves [stuff] as it was and
    needs no recursive call (one unit of fuel is enough). *)
Theorem dpll_empty_clause (iter_first : list Literal -> gset Literal -> Literal) (h : Z) :
  dpll_satisfiable iter_first [∅] h = Ret (false, ∅, []) /\
  forall model stuff, _dpll iter_first 1 [∅] model stuff = Ret (false, stuff).
Proof. split; reflexivity. Qed.

(** C10 (empty model on failure).  If [dpll_satisfiable] returns [False],
    the model it returns is the empty dict. *)
Theorem dpll_unsat_model_empty (iter_first : list Literal -> gset Literal -> Literal)
    (Hiter : forall trace s, s <> ∅ -> iter_first trace s ∈ s)
    (kb : list (gset entry)) (h : Z) m t :
  dpll_satisfiable iter_first kb h = Ret (false, m, t) -> m = ∅.
Proof.
  intros Hrun.
  destruct (dpll_satisfiable_correct iter_first Hiter kb h) as (b & m0 & t0 & Hrun' & H).
  rewrite Hrun in Hrun'. injection Hrun' as <- <- <-. exact (proj1 H).
Qed.

Lemma dpll_unsat_model_empty_witness :
  dpll_satisfiable first_listed (of_lits [ {[A]}; {[neg A]}; {[B]} ]) 2
    = Ret (false, ∅, [neg A]) /\
  (∅ : gmap Literal bool) = ∅.
Proof.
  split; [vm_compute; reflexivity|].
  apply (dpll_unsat_model_empty first_listed first_listed_elem
           (of_lits [ {[A]}; {[neg A]}; {[B]} ]) 2 ∅ [neg A]).
  vm_compute; reflexivity.
Defined.

(** The candidates of the free step are in the order of literals, and at
    level 3 in the order of descending degree with the order of literals
    among equal degrees. *)
Lemma candidates_sorted h lkb :
  (h <> 3 -> StronglySorted lit_lt (candidates h lkb)) /\
  (h = 3 -> StronglySorted (degree_then_lit lkb) (candidates h lkb)).
Proof.
  assert (StronglySorted lit_lt
            (sorted lit_ltb (filter (fun x => pure x lkb || unit x lkb = true)
                                    (elements (get_lits lkb))))) as Hs.
  { apply sorted_lit_sorted. apply NoDup_filter, NoDup_elements. }
  unfold candidates. split; intros Hh.
  - apply Z.eqb_neq in Hh. rewrite Hh. exact Hs.
  - apply Z.eqb_eq in Hh. rewrite Hh. now apply sorted_key_reverse_sorted.
Qed.

(** C6 (free simplification at level 2 and above).  When the knowledge
    base after housekeeping is neither empty nor holds an empty clause and
    the level is at least 2: the candidates are exactly the literals of the
    knowledge base that are pure or unit; they are sorted in the order of
    literals, and by descending degree (ties in the order of literals) when
    the level is 3; and if there is a first candidate, the call is the one
    recursive call with that candidate appended to the trace, its sign
    substituted for its name and the model extended by it.  On
    [[{A, B}, {A, -B}]] every level from 2 on returns [True] with the model
    [{A: True}] and the trace [[A]]. *)
Theorem freebie_step (iter_first : list Literal -> gset Literal -> Literal) :
  (forall (h : Z) (kb : list (gset entry)),
     2 <= h -> nonterminal (housekeeping kb) ->
     (forall x, x ∈ candidates h (housekeeping kb) <->
                x ∈ get_lits (housekeeping kb) /\
                (pure x (housekeeping kb) = true \/ unit x (housekeeping kb) = true)) /\
     (h <> 3 -> StronglySorted lit_lt (candidates h (housekeeping kb))) /\
     (h = 3 -> StronglySorted (degree_then_lit (housekeeping kb))
                              (candidates h (housekeeping kb))) /\
     (forall sub rest, candidates h (housekeeping kb) = sub :: rest ->
        forall fuel model stuff, h_lvl stuff = h ->
          _dpll iter_first (S fuel) kb model stuff =
          _dpll iter_first fuel (substitute (name sub) (sign sub) (housekeeping kb))
                (<[name sub := sign sub]> model) (push_trace sub stuff))) /\
  (forall h : Z, 2 <= h ->
     dpll_satisfiable iter_first kb_pure h = Ret (true, {[ A := true ]}, [A])).
Proof.
  split.
  - intros h kb Hh [Hne Hnex].
    split; [intros x; apply candidates_elem|].
    split; [apply candidates_sorted|]. split; [apply candidates_sorted|].
    intros sub rest Hc fuel model stuff Hlvl.
    rewrite _dpll_unfold. cbv zeta.
    rewrite (bool_decide_eq_false_2 _ Hne), (bool_decide_eq_false_2 _ Hnex).
    rewrite Hlvl, Hc. assert ((h >=? 2) = true) as -> by lia. reflexivity.
  - intros h Hh. destruct (decide (h = 3)) as [->|Hne3].
    + vm_compute; reflexivity.
    + destruct (decide (h = 2)) as [->|Hne2]; [vm_compute; reflexivity|].
      rewrite (dpll_satisfiable_level iter_first 2 h kb_pure)
        by (apply level_flags_high; lia).
      vm_compute; reflexivity.
Qed.

Lemma freebie_step_witness :
  (candidates 2 (housekeeping kb_pure) = [A] /\
   StronglySorted lit_lt (candidates 2 (housekeeping kb_pure)) /\
   _dpll first_listed 2 kb_pure ∅ (mkStuff ∅ [] 2) =
   _dpll first_listed 1 (substitute "A" true (housekeeping kb_pure))
         {[ "A" := true ]} (mkStuff ∅ [A] 2)) /\
  dpll_satisfiable first_listed kb_pure 5 = Ret (true, {[ A := true ]}, [A]).
Proof.
  assert (candidates 2 (housekeeping kb_pure) = [A]) as Hc by (vm_compute; reflexivity).
  assert (nonterminal (housekeeping kb_pure)) as Hnt.
  { unfold nonterminal. apply (bool_decide_unpack _). vm_compute. exact I. }
  destruct (proj1 (freebie_step first_listed) 2 kb_pure ltac:(lia) Hnt)
    as (_ & Hsorted & _ & Hstep).
  split; [split; [exact Hc | split]|].
  - apply Hsorted. lia.
  - apply (Hstep A [] Hc 1%nat ∅ (mkStuff ∅ [] 2)). reflexivity.
  - apply (proj2 (freebie_step first_listed) 5). lia.
Defined.

(** * Further properties of the code *)

(** ** Literals *)

Lemma neg_neg (l : Literal) : neg (neg l) = l.
Proof. destruct l as [n s]. unfold neg. simpl. now rewrite negb_involutive. Qed.

(** X1 (negation).  Negating a literal twice gives the literal back;
    negation keeps the name and never returns the literal itself. *)
Theorem neg_involutive (l : Literal) :
  neg (neg l) = l /\ name (neg l) = name l /\ neg l <> l.
Proof.
  destruct l as [n s]. unfold neg. simpl. rewrite negb_involutive.
  split; [reflexivity|]. split; [reflexivity|].
  intros [= Hs]. now destruct s.
Qed.

(** X2 (the order of literals).  The order the dataclass generates is a
    strict total order: irreflexive, transitive, and any two different
    literals are comparable. *)
Theorem Literal_strict_total_order : StrictOrder lit_lt /\ Trichotomy lit_lt.
Proof.
  split.
  - split; [exact lit_lt_irrefl | exact lit_lt_trans].
  - exact lit_lt_total.
Qed.

(** X3 ([sorted] on a set).  Whatever the order in which a set of literals
    is listed, [sorted] returns the same list: the elements of the set,
    strictly increasing. *)
Theorem sorted_set_canonical (l1 l2 : list Literal) :
  NoDup l1 -> l1 ≡ₚ l2 ->
  sorted lit_ltb l1 = sorted lit_ltb l2 /\
  StronglySorted lit_lt (sorted lit_ltb l1) /\
  forall x, x ∈ sorted lit_ltb l1 <-> x ∈ l1.
Proof.
  intros Hnd Hp. split; [now apply sorted_lit_unique|].
  split; [now apply sorted_lit_sorted | intros x; apply elem_of_sorted].
Qed.

Lemma sorted_set_canonical_witness :
  sorted lit_ltb [C; neg A; B] = sorted lit_ltb [B; C; neg A] /\
  StronglySorted lit_lt (sorted lit_ltb [C; neg A; B]) /\
  forall x, x ∈ sorted lit_ltb [C; neg A; B] <-> x ∈ [C; neg A; B].
Proof.
  apply (sorted_set_canonical [C; neg A; B] [B; C; neg A]).
  - apply (bool_decide_unpack _). vm_compute. exact I.
  - transitivity [C; B; neg A]; [apply perm_skip, perm_swap | apply perm_swap].
Defined.

(** ** Degree, pure and unit literals *)

Lemma get_lits_cons (c : gset Literal) lkb : get_lits (c :: lkb) = c ∪ get_lits lkb.
Proof. reflexivity. Qed.

Lemma degree_cons (l : Literal) (c : gset Literal) lkb :
  degree l (c :: lkb) =
  ((if bool_decide (l ∈ c) || bool_decide (neg l ∈ c) then 1 else 0) + degree l lkb)%nat.
Proof. reflexivity. Qed.

(** X4 ([degree]).  A literal and its negation have the same degree; the
    degree is at most the number of clauses; and it is zero exactly when
    neither the literal nor its negation is in the knowledge base. *)
Theorem degree_facts (l : Literal) (kb : list (gset Literal)) :
  degree (neg l) kb = degree l kb /\
  (degree l kb <= length kb)%nat /\
  (degree l kb = 0%nat <-> (l ∉ get_lits kb) /\ (neg l ∉ get_lits kb)).
Proof.
  split; [|split].
  - unfold degree. rewrite neg_neg. f_equal.
    apply list_fmap_ext. intros i c _.
    now rewrite orb_comm.
  - induction kb as [|c kb IH]; [unfold degree; simpl; lia|].
    rewrite degree_cons. simpl length. destruct (_ || _); lia.
  - induction kb as [|c kb IH].
    + split; [intros _; split; apply not_elem_of_empty | reflexivity].
    + rewrite degree_cons, get_lits_cons, !not_elem_of_union.
      destruct (bool_decide (l ∈ c)) eqn:H1; destruct (bool_decide (neg l ∈ c)) eqn:H2;
        simpl;
        try apply bool_decide_eq_true in H1; try apply bool_decide_eq_true in H2;
        try apply bool_decide_eq_false in H1; try apply bool_decide_eq_false in H2;
        try (split; [discriminate | tauto]).
      rewrite IH. tauto.
Qed.

(** X5 (the degree heuristic, lines 91-95).  At level 1 and above the
    branching literal is a literal of the knowledge base of the largest
    degree, and among the literals of that degree the first in the order
    of literals. *)
Theorem branch_by_degree (iter_first : list Literal -> gset Literal -> Literal)
    (stuff : Stuff) (kb : list (gset Literal)) (sub : Literal) :
  1 <= h_lvl stuff ->
  branch_literal iter_first stuff kb = Ret sub ->
  sub ∈ get_lits kb /\
  forall x, x ∈ get_lits kb ->
    (degree x kb <= degree sub kb)%nat /\
    (degree x kb = degree sub kb -> x = sub \/ lit_lt sub x).
Proof.
  intros Hh. unfold branch_literal. assert ((h_lvl stuff >=? 1) = true) as -> by lia.
  destruct (by_degree kb) as [|y rest] eqn:Hl; simpl; [discriminate|].
  intros [= ->].
  assert (StronglySorted (degree_then_lit kb) (sub :: rest)) as Hs.
  { rewrite <- Hl. unfold by_degree, degree_then_lit.
    apply sorted_key_reverse_sorted, sorted_lit_sorted, NoDup_elements. }
  apply StronglySorted_inv in Hs as [_ Hall]. rewrite Forall_forall in Hall.
  split; [apply by_degree_elem; rewrite Hl; left|].
  intros x Hx. apply by_degree_elem in Hx. rewrite Hl in Hx.
  apply elem_of_cons in Hx as [->|Hx]; [split; [lia | auto]|].
  destruct (Hall x Hx) as [Hlt|[Heq Hlt]]; split; try lia; auto.
Qed.

Lemma branch_by_degree_witness :
  branch_literal first_listed (mkStuff ∅ [] 1) kb_rank_lits = Ret (neg C) /\
  neg C ∈ get_lits kb_rank_lits /\
  forall x, x ∈ get_lits kb_rank_lits ->
    (degree x kb_rank_lits <= degree (neg C) kb_rank_lits)%nat /\
    (degree x kb_rank_lits = degree (neg C) kb_rank_lits -> x = neg C \/ lit_lt (neg C) x).
Proof.
  split; [vm_compute; reflexivity|].
  apply (branch_by_degree first_listed (mkStuff ∅ [] 1) kb_rank_lits (neg C)).
  - simpl. lia.
  - vm_compute; reflexivity.
Defined.

(** X6 (pure and unit literals are safe, lines 70-88).  Giving a pure or
    unit literal its sign keeps satisfiability: the knowledge base has a
    satisfying valuation exactly when the substituted one has. *)
Theorem freebie_equisatisfiable (sub : Literal) (kb : list (gset Literal)) :
  pure sub kb = true \/ unit sub kb = true ->
  ((exists v, lkb_sat v kb) <->
   (exists v, kb_sat v (substitute (name sub) (sign sub) kb))).
Proof.
  intros Hpu. split; intros [v Hv].
  - exists v. refine (proj2 (substitute_holds_val v (name sub) (sign sub) kb) _).
    destruct Hpu; [now apply pure_sat | now apply unit_sat].
  - exists (override (name sub) (sign sub) v).
    exact (proj1 (substitute_holds_val _ _ _ _) Hv).
Qed.

Lemma freebie_equisatisfiable_witness :
  pure A [ {[A; B]}; {[A; neg B]} ] = true /\
  ((exists v, lkb_sat v [ {[A; B]}; {[A; neg B]} ]) <->
   (exists v, kb_sat v (substitute "A" true [ {[A; B]}; {[A; neg B]} ]))).
Proof.
  split; [vm_compute; reflexivity|].
  apply (freebie_equisatisfiable A [ {[A; B]}; {[A; neg B]} ]).
  left. vm_compute; reflexivity.
Defined.

(** X7 (a unit clause forces its literal, line 41).  Every valuation that
    satisfies a knowledge base makes the literals of its unit clauses
    true. *)
Theorem unit_forces (sub : Literal) (kb : list (gset Literal)) (v : string -> bool) :
  unit sub kb = true -> lkb_sat v kb -> v (name sub) = sign sub.
Proof.
  unfold unit. rewrite bool_decide_eq_true. intros Hu Hsat.
  destruct (Hsat _ Hu) as (x & Hx & HP). apply elem_of_singleton in Hx as ->. exact HP.
Qed.

Lemma unit_forces_witness :
  unit A kb_unit = true /\
  lkb_sat (fun _ => true) kb_unit /\
  (fun _ : string => true) (name A) = sign A.
Proof.
  assert (unit A kb_unit = true) as Hu by (vm_compute; reflexivity).
  assert (lkb_sat (fun _ => true) kb_unit) as Hs.
  { intros c Hc. exists A. split; [|reflexivity].
    unfold kb_unit in Hc. apply elem_of_cons in Hc as [->|Hc]; [set_solver|].
    apply elem_of_cons in Hc as [->|Hc]; [set_solver|]. inversion Hc. }
  split; [exact Hu|]. split; [exact Hs|].
  exact (unit_forces A kb_unit (fun _ => true) Hu Hs).
Defined.

(** ** Substitution and housekeeping *)

(** X8 ([substitute] removes the name, lines 22-24).  The names of the
    literals left after [substitute(name, value, kb)] are the names of [kb]
    without [name]: no literal of that name remains, and no other name is
    lost. *)
Theorem substitute_names (n : string) (value : bool) (kb : list (gset Literal)) :
  kb_names (substitute n value kb) = lits_names kb ∖ {[ n ]}.
Proof.
  apply set_eq. intros k. split; [apply kb_names_substitute|].
  rewrite elem_of_difference, elem_of_singleton. intros [Hk Hne].
  apply elem_of_lits_names in Hk as (l & Hl & <-).
  apply elem_of_get_lits in Hl as (c & Hc & Hl).
  apply elem_of_kb_names. exists (set_map (subst_entry n value) c), l.
  split; [apply elem_of_substitute; eauto|]. split; [|reflexivity].
  apply elem_of_map. exists l. split; [|assumption].
  unfold subst_entry. destruct (decide (name l ≠ n)); [reflexivity | contradiction].
Qed.

(** X9 ([substitute] is evaluation, lines 22-24 with line 57).  A
    valuation satisfies [substitute(name, value, kb)] exactly when the
    valuation changed to give [name] the value [value] satisfies [kb]. *)
Theorem substitute_is_evaluation (v : string -> bool) (n : string) (value : bool)
    (kb : list (gset Literal)) :
  kb_sat v (substitute n value kb) <-> lkb_sat (override n value v) kb.
Proof. apply substitute_holds_val. Qed.

(** X10 (housekeeping on a knowledge base of literals, line 57).  On a
    knowledge base whose clauses hold literals only, as the caller passes
    it, housekeeping changes nothing. *)
Theorem housekeeping_of_lits (kb : list (gset Literal)) :
  housekeeping (of_lits kb) = kb.
Proof.
  unfold housekeeping, of_lits. induction kb as [|c kb IH]; [reflexivity|].
  rewrite fmap_cons, filter_cons_True.
  - rewrite fmap_cons, IH. f_equal. apply set_eq. intros l.
    rewrite elem_of_kept_literals, elem_of_map. split.
    + intros (x & [= ->] & Hx). exact Hx.
    + intros Hl. eauto.
  - rewrite elem_of_map. intros (x & Hx & _). discriminate.
Qed.

(** X11 (housekeeping keeps the meaning, line 57).  A valuation satisfies
    a knowledge base exactly when it satisfies the result of housekeeping,
    and housekeeping returns at most as many clauses as it gets. *)
Theorem housekeeping_meaning (v : string -> bool) (kb : list (gset entry)) :
  (kb_sat v kb <-> lkb_sat v (housekeeping kb)) /\
  (length (housekeeping kb) <= length kb)%nat.
Proof.
  split; [apply housekeeping_holds|].
  unfold housekeeping. rewrite length_fmap. apply length_filter.
Qed.

(** ** Runs of the search *)

Lemma occurs_housekeeping l kb : l ∈ get_lits (housekeeping kb) -> occurs l kb.
Proof.
  intros Hl. apply elem_of_get_lits in Hl as (lc & Hlc & Hl).
  apply elem_of_housekeeping in Hlc as (c & Hc & _ & ->).
  apply elem_of_kept_literals in Hl. exists c. auto.
Qed.

Lemma occurs_substitute l n b (lkb : list (gset Literal)) :
  occurs l (substitute n b lkb) -> l ∈ get_lits lkb.
Proof.
  intros (c & Hc & Hl). apply elem_of_substitute in Hc as (lc & Hlc & ->).
  apply elem_of_map in Hl as (x & Hx & Hxl).
  unfold subst_entry in Hx. destruct (decide (name x ≠ n)); [|discriminate].
  inversion Hx; subst x. apply elem_of_get_lits. eauto.
Qed.

Lemma occurs_step kb sub b ext :
  sub ∈ get_lits (housekeeping kb) ->
  Forall (fun l => occurs l (substitute (name sub) b (housekeeping kb))) ext ->
  Forall (fun l => occurs l kb) ext.
Proof.
  intros Hsub Hext. eapply Forall_impl; [exact Hext|]. intros l Hl.
  apply occurs_housekeeping. now apply occurs_substitute in Hl.
Qed.

Lemma changed_step (m' model : gmap string bool) sub b (pre ext : list Literal) :
  (forall k, m' !! k <> <[name sub := b]> model !! k -> k ∈ name <$> ext) ->
  forall k, m' !! k <> model !! k -> k ∈ name <$> (sub :: pre ++ ext).
Proof.
  intros H k Hk. rewrite fmap_cons, fmap_app.
  destruct (decide (k = name sub)) as [->|Hne]; [left|].
  right. apply elem_of_app. right. apply H. now rewrite lookup_insert_ne by auto.
Qed.

Section Runs.

Variable iter_first : list Literal -> gset Literal -> Literal.

Lemma branch_literal_ret stuff lkb :
  get_lits lkb <> ∅ -> exists sub, branch_literal iter_first stuff lkb = Ret sub.
Proof.
  intros Hne. unfold branch_literal. destruct (h_lvl stuff >=? 1).
  - destruct (by_degree lkb) as [|x l] eqn:Hl; [|simpl; eauto].
    exfalso. apply Hne. apply set_eq. intros x.
    rewrite <- by_degree_elem, Hl. set_solver.
  - unfold one_of. destruct (decide (get_lits lkb = ∅)); [contradiction | eauto].
Qed.

(** The tests of lines 60-64 guard [[0]] and [one_of]: no call raises. *)
Lemma _dpll_no_raise fuel : forall kb model stuff e,
  _dpll iter_first fuel kb model stuff <> Raise e.
Proof.
  induction fuel as [|fuel IH]; intros kb model stuff e; [discriminate|].
  rewrite _dpll_unfold. cbv zeta.
  case_bool_decide as Hnil; [discriminate|]. case_bool_decide as Hex; [discriminate|].
  destruct (if h_lvl stuff >=? 2 then candidates (h_lvl stuff) (housekeeping kb) else [])
    as [|sub rest]; [|apply IH].
  destruct (branch_literal_ret stuff (housekeeping kb)) as (sub & ->).
  { now apply nonterminal_has_literal. }
  simpl.
  destruct (_dpll iter_first fuel (substitute (name sub) true (housekeeping kb)) _ _)
    as [[b1 stuff1]|e1|] eqn:E1; simpl; [|now apply IH in E1 | discriminate].
  destruct b1; [discriminate | apply IH].
Qed.

(** The trace only grows, and a call that returns [False] leaves the saved
    model as it was. *)
Lemma _dpll_frame_aux fuel : forall kb model stuff b stuff',
  _dpll iter_first fuel kb model stuff = Ret (b, stuff') ->
  st_trace stuff `prefix_of` st_trace stuff' /\
  (b = false -> st_model stuff' = st_model stuff).
Proof.
  induction fuel as [|fuel IH]; intros kb model stuff b stuff'; [discriminate|].
  rewrite _dpll_unfold. cbv zeta.
  case_bool_decide as Hnil; [intros [= <- <-]; split; [reflexivity | discriminate]|].
  case_bool_decide as Hex; [intros [= <- <-]; split; reflexivity|].
  destruct (if h_lvl stuff >=? 2 then candidates (h_lvl stuff) (housekeeping kb) else [])
    as [|sub rest].
  - destruct (branch_literal iter_first stuff (housekeeping kb)) as [sub| |];
      simpl; try discriminate.
    destruct (_dpll iter_first fuel (substitute (name sub) true (housekeeping kb)) _ _)
      as [[b1 stuff1]| |] eqn:E1; simpl; try discriminate.
    apply IH in E1 as [Hp1 Hm1]. simpl in Hp1, Hm1.
    assert (st_trace stuff `prefix_of` st_trace stuff1) as Hp.
    { etransitivity; [apply prefix_app_r; reflexivity | exact Hp1]. }
    destruct b1.
    + intros [= <- <-]. split; [exact Hp | discriminate].
    + intros E2. apply IH in E2 as [Hp2 Hm2]. split.
      * transitivity (st_trace stuff1); assumption.
      * intros Hb. rewrite (Hm2 Hb). now apply Hm1.
  - intros E. apply IH in E as [Hp Hm]. simpl in Hp, Hm. split; [|exact Hm].
    etransitivity; [apply prefix_app_r; reflexivity | exact Hp].
Qed.

(** With [1 <= h_lvl] the iteration order of sets is never asked. *)
Lemma _dpll_any_order (iter_other : list Literal -> gset Literal -> Literal) fuel :
  forall kb model stuff, 1 <= h_lvl stuff ->
    _dpll iter_first fuel kb model stuff = _dpll iter_other fuel kb model stuff.
Proof.
  induction fuel as [|fuel IH]; intros kb model stuff Hh; [reflexivity|].
  rewrite !_dpll_unfold. cbv zeta.
  case_bool_decide as Hnil; [reflexivity|]. case_bool_decide as Hex; [reflexivity|].
  destruct (if h_lvl stuff >=? 2 then candidates (h_lvl stuff) (housekeeping kb) else [])
    as [|sub rest]; [|now apply IH].
  unfold branch_literal. assert ((h_lvl stuff >=? 1) = true) as -> by lia.
  destruct (index0 (by_degree (housekeeping kb))) as [sub| |]; simpl; try reflexivity.
  rewrite (IH _ _ (push_trace sub stuff)) by exact Hh.
  destruct (_dpll iter_other fuel (substitute (name sub) true (housekeeping kb)) _ _)
    as [[b1 stuff1]| |] eqn:E1; simpl; try reflexivity.
  destruct b1; [reflexivity|]. apply IH.
  apply _dpll_h_lvl in E1. simpl in E1. lia.
Qed.

Hypothesis iter_first_elem : forall trace s, s <> ∅ -> iter_first trace s ∈ s.

(** What a run appends to the trace: literals of the knowledge base, none
    exactly when housekeeping decides the knowledge base, and on [True] the
    names of all the entries the saved model adds to [model]. *)
Lemma _dpll_run_shape fuel : forall kb model stuff b stuff',
  _dpll iter_first fuel kb model stuff = Ret (b, stuff') ->
  exists ext,
    st_trace stuff' = st_trace stuff ++ ext /\
    Forall (fun l => occurs l kb) ext /\
    (ext = [] <-> ~ nonterminal (housekeeping kb)) /\
    (b = true -> exists m', st_model stuff' = m' ∪ st_model stuff /\
                            forall k, m' !! k <> model !! k -> k ∈ name <$> ext).
Proof.
  induction fuel as [|fuel IH]; intros kb model stuff b stuff'; [discriminate|].
  rewrite _dpll_unfold. cbv zeta.
  case_bool_decide as Hnil.
  { intros [= <- <-]. exists []. simpl. rewrite app_nil_r.
    split; [reflexivity|]. split; [constructor|].
    split; [split; [intros _ [Hne _]; contradiction | reflexivity]|].
    intros _. exists model. split; [reflexivity|]. intros k Hk. contradiction. }
  case_bool_decide as Hex.
  { intros [= <- <-]. exists []. rewrite app_nil_r.
    split; [reflexivity|]. split; [constructor|].
    split; [split; [intros _ [_ Hn]; contradiction | reflexivity]|]. discriminate. }
  assert (nonterminal (housekeeping kb)) as Hnt by (split; assumption).
  destruct (if h_lvl stuff >=? 2 then candidates (h_lvl stuff) (housekeeping kb) else [])
    as [|sub rest] eqn:Hc.
  - destruct (branch_literal_elem iter_first iter_first_elem stuff (housekeeping kb))
      as (sub & -> & Hsub).
    { now apply nonterminal_has_literal. }
    simpl.
    destruct (_dpll iter_first fuel (substitute (name sub) true (housekeeping kb)) _ _)
      as [[b1 stuff1]| |] eqn:E1; simpl; try discriminate.
    pose proof (_dpll_frame_aux _ _ _ _ _ _ E1) as [_ Hkeep].
    apply IH in E1 as (ext1 & Ht1 & Hocc1 & _ & Hm1). simpl in Ht1, Hkeep.
    apply (occurs_step kb sub true) in Hocc1; [|exact Hsub].
    destruct b1.
    + intros [= <- <-]. exists (sub :: ext1).
      split; [rewrite Ht1, <- app_assoc; reflexivity|].
      split; [constructor; [now apply occurs_housekeeping | exact Hocc1]|].
      split; [split; [discriminate | intros Hn; contradiction]|].
      intros _. destruct (Hm1 eq_refl) as (m' & Hm' & Hk). exists m'.
      split; [exact Hm'|]. exact (changed_step m' model sub true [] ext1 Hk).
    + intros E2. apply IH in E2 as (ext2 & Ht2 & Hocc2 & _ & Hm2).
      apply (occurs_step kb sub false) in Hocc2; [|exact Hsub].
      exists (sub :: ext1 ++ ext2).
      split; [rewrite Ht2, Ht1, <- !app_assoc; reflexivity|].
      split; [constructor; [now apply occurs_housekeeping | now apply Forall_app]|].
      split; [split; [discriminate | intros Hn; contradiction]|].
      intros Hb. destruct (Hm2 Hb) as (m' & Hm' & Hk). exists m'.
      split; [rewrite Hm', (Hkeep eq_refl); reflexivity|].
      exact (changed_step m' model sub false ext1 ext2 Hk).
  - assert (sub ∈ get_lits (housekeeping kb)) as Hsub.
    { destruct (h_lvl stuff >=? 2); [|discriminate].
      apply (candidates_elem sub (h_lvl stuff)). rewrite Hc. left. }
    intros E. apply IH in E as (ext1 & Ht1 & Hocc1 & _ & Hm1). simpl in Ht1.
    apply (occurs_step kb sub (sign sub)) in Hocc1; [|exact Hsub].
    exists (sub :: ext1).
    split; [rewrite Ht1, <- app_assoc; reflexivity|].
    split; [constructor; [now apply occurs_housekeeping | exact Hocc1]|].
    split; [split; [discriminate | intros Hn; contradiction]|].
    intros Hb. destruct (Hm1 Hb) as (m' & Hm' & Hk). exists m'.
    split; [exact Hm'|]. exact (changed_step m' model sub (sign sub) [] ext1 Hk).
Qed.

End Runs.

(** X12 (no exception, lines 60-64, 95 and 101).  Whatever the iteration
    order of sets, the level and the state, a call of [_dpll] raises
    neither [IndexError] nor [StopIteration]: it returns, unless the bound
    on nested calls stops it. *)
Theorem _dpll_never_raises (iter_first : list Literal -> gset Literal -> Literal)
    (fuel : nat) (kb : list (gset entry)) (model : gmap string bool) (stuff : Stuff) :
  (exists r, _dpll iter_first fuel kb model stuff = Ret r) \/
  _dpll iter_first fuel kb model stuff = OutOfFuel.
Proof.
  destruct (_dpll iter_first fuel kb model stuff) as [r|e|] eqn:E; [eauto | | auto].
  now apply _dpll_no_raise in E.
Qed.

(** X13 ([dpll_satisfiable] decides satisfiability, lines 111-133).  On
    every knowledge base of literals and booleans and at every level the
    call returns, and its verdict is [True] exactly when some valuation
    makes every clause hold (a clause holds when it has [True] or a true
    literal). *)
Theorem dpll_decides (iter_first : list Literal -> gset Literal -> Literal)
    (Hiter : forall trace s, s <> ∅ -> iter_first trace s ∈ s)
    (kb : list (gset entry)) (h : Z) :
  exists b m t,
    dpll_satisfiable iter_first kb h = Ret (b, m, t) /\
    (b = true <-> exists v, kb_sat v kb).
Proof.
  destruct (dpll_satisfiable_correct iter_first Hiter kb h) as (b & m & t & Hrun & H).
  exists b, m, t. split; [exact Hrun|]. destruct b.
  - destruct H as (m' & _ & H). split; [|reflexivity].
    intros _. eexists. apply model_gives_valuation. exact H.
  - destruct H as [_ H]. split; [discriminate|]. intros [v Hv]. now destruct (H v).
Qed.

Lemma dpll_decides_witness :
  exists b m t,
    dpll_satisfiable first_listed kb_rank 0 = Ret (b, m, t) /\
    (b = true <-> exists v, kb_sat v kb_rank).
Proof.
  exact (dpll_decides first_listed first_listed_elem kb_rank 0).
Defined.

(** X14 (the keys of the model, lines 86, 106-107 and 131).  Every key of
    a returned model is a positive literal whose name is the name of a
    literal of the knowledge base. *)
Theorem dpll_model_keys (iter_first : list Literal -> gset Literal -> Literal)
    (Hiter : forall trace s, s <> ∅ -> iter_first trace s ∈ s)
    (kb : list (gset entry)) (h : Z) b m t :
  dpll_satisfiable iter_first kb h = Ret (b, m, t) ->
  forall key value, m !! key = Some value ->
    sign key = true /\ name key ∈ kb_names kb.
Proof.
  unfold dpll_satisfiable.
  destruct (_dpll_correct iter_first Hiter (S (size (kb_names kb)))
              kb ∅ (mkStuff ∅ [] h)) as (b0 & stuff' & -> & Hpost); [lia|].
  simpl. intros [= <- <- <-] key value Hkey.
  apply (lookup_kmap_Some Literal_of) in Hkey as (k & -> & Hk).
  split; [reflexivity|]. simpl.
  destruct b0.
  - destruct Hpost as (m' & Hm' & Hframe & _). rewrite Hm' in Hk. simpl in Hk.
    rewrite (right_id_L ∅ (∪)) in Hk.
    destruct (decide (k ∈ kb_names kb)) as [|Hn]; [assumption|].
    rewrite (Hframe k Hn), lookup_empty in Hk. discriminate.
  - destruct Hpost as [Hm _]. rewrite Hm in Hk. simpl in Hk.
    rewrite lookup_empty in Hk. discriminate.
Qed.

Lemma dpll_model_keys_witness :
  dpll_satisfiable first_listed (of_lits kb_chain) 1
    = Ret (true, {[ A := true; C := true ]}, [neg A; C]) /\
  forall key value,
    ({[ A := true; C := true ]} : gmap Literal bool) !! key = Some value ->
    sign key = true /\ name key ∈ kb_names (of_lits kb_chain).
Proof.
  split; [vm_compute; reflexivity|].
  apply (dpll_model_keys first_listed first_listed_elem (of_lits kb_chain) 1
           true _ [neg A; C]).
  vm_compute; reflexivity.
Defined.

(** X15 (the trace holds literals of the knowledge base, lines 83 and
    104).  Every literal of the returned trace is a literal of a clause of
    the knowledge base given to [dpll_satisfiable]. *)
Theorem dpll_trace_occurs (iter_first : list Literal -> gset Literal -> Literal)
    (Hiter : forall trace s, s <> ∅ -> iter_first trace s ∈ s)
    (kb : list (gset entry)) (h : Z) b m t :
  dpll_satisfiable iter_first kb h = Ret (b, m, t) ->
  Forall (fun l => occurs l kb) t.
Proof.
  unfold dpll_satisfiable.
  destruct (_dpll iter_first (S (size (kb_names kb))) kb ∅ (mkStuff ∅ [] h))
    as [[b0 stuff']| |] eqn:E; simpl; try discriminate.
  intros [= <- <- <-].
  apply (_dpll_run_shape iter_first Hiter) in E as (ext & Ht & Hocc & _).
  simpl in Ht. now rewrite Ht.
Qed.

Lemma dpll_trace_occurs_witness :
  dpll_satisfiable first_listed (of_lits kb_chain) 1
    = Ret (true, {[ A := true; C := true ]}, [neg A; C]) /\
  Forall (fun l => occurs l (of_lits kb_chain)) [neg A; C].
Proof.
  split; [vm_compute; reflexivity|].
  apply (dpll_trace_occurs first_listed first_listed_elem (of_lits kb_chain) 1
           true {[ A := true; C := true ]} [neg A; C]).
  vm_compute; reflexivity.
Defined.

(** X16 (the model is made of decisions, lines 83-88 and 104-107).  Every
    name a returned model assigns is the name of a literal of the trace. *)
Theorem dpll_model_in_trace (iter_first : list Literal -> gset Literal -> Literal)
    (Hiter : forall trace s, s <> ∅ -> iter_first trace s ∈ s)
    (kb : list (gset entry)) (h : Z) m t :
  dpll_satisfiable iter_first kb h = Ret (true, m, t) ->
  forall key value, m !! key = Some value -> name key ∈ name <$> t.
Proof.
  unfold dpll_satisfiable.
  destruct (_dpll iter_first (S (size (kb_names kb))) kb ∅ (mkStuff ∅ [] h))
    as [[b0 stuff']| |] eqn:E; simpl; try discriminate.
  intros [= -> <- <-] key value Hkey.
  apply (_dpll_run_shape iter_first Hiter) in E as (ext & Ht & _ & _ & Hm).
  destruct (Hm eq_refl) as (m' & Hm' & Hk). simpl in Ht, Hm'.
  rewrite (right_id_L ∅ (∪)) in Hm'. rewrite Hm' in Hkey.
  apply (lookup_kmap_Some Literal_of) in Hkey as (k & -> & Hkey).
  simpl. rewrite Ht. apply Hk. rewrite Hkey, lookup_empty. discriminate.
Qed.

Lemma dpll_model_in_trace_witness :
  dpll_satisfiable first_listed kb_rank 3
    = Ret (true, {[ A := true; B := true ]}, [B; A]) /\
  forall key value,
    ({[ A := true; B := true ]} : gmap Literal bool) !! key = Some value ->
    name key ∈ name <$> [B; A].
Proof.
  split; [vm_compute; reflexivity|].
  apply (dpll_model_in_trace first_listed first_listed_elem kb_rank 3 _ [B; A]).
  vm_compute; reflexivity.
Defined.

(** X17 (levels 1 and above do not depend on the iteration order of sets,
    lines 91-101).  From level 1 on [one_of] is never called: two runs
    with different iteration orders return the same verdict, model and
    trace. *)
Theorem dpll_level1_any_order (iter1 iter2 : list Literal -> gset Literal -> Literal)
    (kb : list (gset entry)) (h : Z) :
  1 <= h -> dpll_satisfiable iter1 kb h = dpll_satisfiable iter2 kb h.
Proof.
  intros Hh. unfold dpll_satisfiable.
  now rewrite (_dpll_any_order iter1 iter2) by exact Hh.
Qed.

Lemma dpll_level1_any_order_witness :
  dpll_satisfiable first_listed kb_rank 1
  = dpll_satisfiable (fun _ _ => Literal_of "") kb_rank 1.
Proof.
  apply (dpll_level1_any_order first_listed (fun _ _ => Literal_of "") kb_rank 1). lia.
Defined.

(** ** Knowledge bases that housekeeping decides *)

Lemma housekeeping_nil_iff kb :
  housekeeping kb = [] <-> forall c, c ∈ kb -> Bool true ∈ c.
Proof.
  unfold housekeeping. induction kb as [|c kb IH].
  - split; [intros _ c Hc; inversion Hc | reflexivity].
  - destruct (decide (Bool true ∈ c)) as [Ht|Hn].
    + rewrite filter_cons_False by (intros Hc; contradiction).
      rewrite IH. split.
      * intros H c' Hc'. apply elem_of_cons in Hc' as [->|Hc']; auto.
      * intros H c' Hc'. apply H. now right.
    + rewrite filter_cons_True by exact Hn. rewrite fmap_cons. split; [discriminate|].
      intros H. destruct Hn. apply H. left.
Qed.

Lemma housekeeping_empty_clause kb c :
  c ∈ kb -> (forall e, e ∈ c -> e = Bool false) -> ∅ ∈ housekeeping kb.
Proof.
  intros Hc Hfalse. apply elem_of_housekeeping. exists c. split; [exact Hc|]. split.
  - intros Ht. apply Hfalse in Ht. discriminate.
  - apply set_eq. intros l. rewrite elem_of_kept_literals. split; [set_solver|].
    intros Hl. apply Hfalse in Hl. discriminate.
Qed.

(** X18 (a clause that cannot hold, lines 57 and 63-64).  If some clause
    of the knowledge base is empty or holds only [False], the call returns
    [False] with the empty model and the empty trace, at every level and
    whatever the other clauses are. *)
Theorem dpll_falsified_clause (iter_first : list Literal -> gset Literal -> Literal)
    (kb : list (gset entry)) (h : Z) (c : gset entry) :
  c ∈ kb -> (forall e, e ∈ c -> e = Bool false) ->
  dpll_satisfiable iter_first kb h = Ret (false, ∅, []).
Proof.
  intros Hc Hfalse. pose proof (housekeeping_empty_clause kb c Hc Hfalse) as Hin.
  unfold dpll_satisfiable. rewrite _dpll_unfold. cbv zeta.
  rewrite bool_decide_eq_false_2 by (intros Hnil; rewrite Hnil in Hin; inversion Hin).
  rewrite bool_decide_eq_true_2 by (apply Exists_exists; eauto).
  simpl. now rewrite kmap_empty.
Qed.

Lemma dpll_falsified_clause_witness :
  dpll_satisfiable first_listed [ {[Lit A]}; {[Bool false]}; {[Lit B; Bool true]} ] 2
  = Ret (false, ∅, []).
Proof.
  apply (dpll_falsified_clause first_listed _ 2 {[Bool false]}).
  - right. left.
  - intros e He. now apply elem_of_singleton in He.
Defined.

(** X19 (clauses that all hold, lines 57 and 60-62).  If every clause of
    the knowledge base holds [True], the call returns [True] with the
    empty model and the empty trace, at every level. *)
Theorem dpll_all_true (iter_first : list Literal -> gset Literal -> Literal)
    (kb : list (gset entry)) (h : Z) :
  (forall c, c ∈ kb -> Bool true ∈ c) ->
  dpll_satisfiable iter_first kb h = Ret (true, ∅, []).
Proof.
  intros Hall. apply housekeeping_nil_iff in Hall.
  unfold dpll_satisfiable. rewrite _dpll_unfold. cbv zeta.
  rewrite bool_decide_eq_true_2 by exact Hall.
  simpl. now rewrite (left_id_L ∅ (∪)), kmap_empty.
Qed.

Lemma dpll_all_true_witness :
  dpll_satisfiable first_listed [ {[Lit A; Bool true]}; {[Bool true; Bool false]} ] 0
  = Ret (true, ∅, []).
Proof.
  apply (dpll_all_true first_listed _ 0).
  intros c Hc. apply elem_of_cons in Hc as [->|Hc]; [set_solver|].
  apply elem_of_cons in Hc as [->|Hc]; [set_solver | inversion Hc].
Defined.

(** X20 (the trace is empty only without a decision, lines 60-64, 83 and
    104).  The returned trace is empty exactly when housekeeping decides
    the knowledge base: no clause is left, or an empty clause is. *)
Theorem dpll_trace_empty_iff (iter_first : list Literal -> gset Literal -> Literal)
    (Hiter : forall trace s, s <> ∅ -> iter_first trace s ∈ s)
    (kb : list (gset entry)) (h : Z) b m t :
  dpll_satisfiable iter_first kb h = Ret (b, m, t) ->
  (t = [] <-> ~ nonterminal (housekeeping kb)).
Proof.
  unfold dpll_satisfiable.
  destruct (_dpll iter_first (S (size (kb_names kb))) kb ∅ (mkStuff ∅ [] h))
    as [[b0 stuff']| |] eqn:E; simpl; try discriminate.
  intros [= <- <- <-].
  apply (_dpll_run_shape iter_first Hiter) in E as (ext & Ht & _ & Hiff & _).
  simpl in Ht. now rewrite Ht.
Qed.

Lemma dpll_trace_empty_iff_witness :
  dpll_satisfiable first_listed (of_lits kb_clash) 0 = Ret (false, ∅, [A]) /\
  ([A] = [] <-> ~ nonterminal (housekeeping (of_lits kb_clash))).
Proof.
  split; [vm_compute; reflexivity|].
  apply (dpll_trace_empty_iff first_listed first_listed_elem (of_lits kb_clash) 0
           false ∅ [A]).
  vm_compute; reflexivity.
Defined.

(** X21 (what a call of [_dpll] leaves alone, lines 51-108).  From any
    state, a call that returns has only appended to the trace, has not
    changed the heuristic level, and has written the saved model only if
    it returns [True]. *)
Theorem _dpll_frame (iter_first : list Literal -> gset Literal -> Literal)
    (fuel : nat) (kb : list (gset entry)) (model : gmap string bool)
    (stuff : Stuff) (b : bool) (stuff' : Stuff) :
  _dpll iter_first fuel kb model stuff = Ret (b, stuff') ->
  st_trace stuff `prefix_of` st_trace stuff' /\
  h_lvl stuff' = h_lvl stuff /\
  (b = false -> st_model stuff' = st_model stuff).
Proof.
  intros E. destruct (_dpll_frame_aux iter_first _ _ _ _ _ _ E) as [Hp Hm].
  split; [exact Hp|]. split; [|exact Hm]. exact (_dpll_h_lvl iter_first _ _ _ _ _ _ E).
Qed.

Lemma _dpll_frame_witness :
  _dpll first_listed 3 (of_lits kb_clash) ∅ (mkStuff {[ "Z" := true ]} [B] 0)
    = Ret (false, mkStuff {[ "Z" := true ]} [B; A] 0) /\
  st_trace (mkStuff {[ "Z" := true ]} [B] 0)
    `prefix_of` st_trace (mkStuff {[ "Z" := true ]} [B; A] 0) /\
  h_lvl (mkStuff {[ "Z" := true ]} [B; A] 0) = h_lvl (mkStuff {[ "Z" := true ]} [B] 0) /\
  (false = false ->
   st_model (mkStuff {[ "Z" := true ]} [B; A] 0) = st_model (mkStuff {[ "Z" := true ]} [B] 0)).
Proof.
  split; [vm_compute; reflexivity|].
  apply (_dpll_frame first_listed 3 (of_lits kb_clash) ∅
           (mkStuff {[ "Z" := true ]} [B] 0) false
           (mkStuff {[ "Z" := true ]} [B; A] 0)).
  vm_compute; reflexivity.
Defined.
